(** * The entity layer of the API client: [src/apiClient/apiBase/Model.js]

    A shallow embedding of the [Model] class and the proofs of its
    specification.

    - Plain data (raw payloads, the output of [toJSON], field values) are
      immutable trees of type [value]: the source never writes to them.
    - [Model] instances live in a store of objects, each with its property
      list and its frozen flag: the constructor writes [this] field by
      field and freezes it, [stub] writes one more field before freezing.
    - Code runs in a state and exception monad over the store, the random
      source behind [Math.random] and the console.
    - JavaScript numbers are IEEE 754 doubles ([spec_float] at precision 53).
      Parsing a string as a number and printing a number that is not a safe
      integer are left to the host ([Host]); every statement below holds
      for every host.
    - The conversions [String(v)] and [Number(v)] throw where the engine
      does: on an object with an own property [toString], which in a tree
      of plain data is never a function. Transformers and derivations are
      therefore functions that return a value or throw.
    - A lookup [D[key]] in a dictionary of the class also finds what every
      object inherits from [Object.prototype] ([has_entry]); [this[key]]
      also finds the members of [Model.prototype] ([inherited_member]).

    What is not modelled: property getters, symbols, strings beyond 8-bit
    characters, methods that a subclass adds to its prototype, and the mock
    registry ([MockTypes], [Mock]), which takes no part in construction.
    Where the code calls the transformer it looked up, the lookup is among
    the own entries of [PROPERTIES], and a method call on an instance is a
    call of the method of [Model]. This is what the code does in every class
    that writes no property over an inherited member ([Pure.proper]); a
    class that does (a field named [toJSON], an alias for [toString]) would
    call an inherited member as a transformer or hide a method of its own
    instances, and the embedding does not follow it there. *)

From Stdlib Require Import ZArith String Ascii List DecimalString DecimalPos Lia.
From Stdlib.Floats Require Import SpecFloat.
From stdpp Require Import base tactics option list strings.

Import ListNotations.
Local Open Scope string_scope.
Local Open Scope list_scope.
Set Warnings "-register-all".

(** ** The runtime: values and the built-in conversions *)

Module JS.

(** Numbers: binary64. *)
Definition number : Type := spec_float.
Definition prec : Z := 53.
Definition emax : Z := 1024.

Definition num_of_Z (z : Z) : number := binary_normalize prec emax z 0 false.
Definition NaN : number := S754_nan.
Definition num_add (x y : number) : number := SFadd prec emax x y.

(** The integer a finite double stands for, when it is one that every
    engine prints digit for digit (at most 2^53 in magnitude). *)
Definition safe_integer (x : number) : option Z :=
  match x with
  | S754_zero _ => Some 0%Z
  | S754_finite s m e =>
      let mag :=
        if (0 <=? e)%Z then Some (Z.pos m * 2 ^ e)%Z
        else if (Z.pos m mod 2 ^ (- e) =? 0)%Z then Some (Z.pos m / 2 ^ (- e))%Z
        else None in
      z ← mag;
      if (z <=? 2 ^ 53)%Z then Some (if s then (- z)%Z else z) else None
  | _ => None
  end.

Definition decimal (n : N) : string := NilEmpty.string_of_uint (N.to_uint n).

Definition decimal_Z (z : Z) : string :=
  if (z <? 0)%Z then "-" +:+ decimal (Z.abs_N z) else decimal (Z.abs_N z).

(** What the engine supplies and this development does not interpret. *)
Class Host := {
  (** StringToNumber: the value of a string read as a numeric literal *)
  host_StringToNumber : string → number;
  (** Number::toString for a finite double that is not a safe integer *)
  host_NumberToString : number → string;
}.

(** How a call ends: with a value, or with a thrown error. *)
Inductive error := TypeError (msg : string).

Inductive result (A : Type) :=
| Ok (a : A)
| Throw (e : error).
Arguments Ok {A} a.
Arguments Throw {A} e.

#[global] Instance result_ret : MRet result := λ A a, Ok a.
#[global] Instance result_bind : MBind result := λ A B f r,
  match r with
  | Ok a => f a
  | Throw e => Throw e
  end.

Section Traverse.
Context {A B : Type} (f : A → result B).

(** [f] on each element in turn, up to the first call that throws. *)
Fixpoint traverse (l : list A) : result (list B) :=
  match l with
  | [] => Ok []
  | a :: l => b ← f a; bs ← traverse l; Ok (b :: bs)
  end.
End Traverse.

Inductive value :=
| VUndefined
| VNull
| VBool (b : bool)
| VNum (n : number)
| VStr (s : string)
| VArr (elems : list value)
| VObj (props : list (string * value))
| VPromise (id : nat).

(** The properties of an object, in the order [Object.keys] lists them:
    the order of insertion (keys that read as array indices, which an engine
    lists first, are taken to occur in arrays and strings only). A list is
    read by its first entry for a key; the code builds none with a key
    twice. *)
Definition properties : Type := list (string * value).

(** [o[k]] on a property list: the first entry for [k]. *)
Fixpoint assoc {A} (k : string) (l : list (string * A)) : option A :=
  match l with
  | [] => None
  | (k', a) :: l => if String.eqb k k' then Some a else assoc k l
  end.

(** [o[k] = v]: in place when [k] is there, else a new last property. *)
Fixpoint set_prop (k : string) (v : value) (o : properties) : properties :=
  match o with
  | [] => [(k, v)]
  | (k', v') :: o => if String.eqb k k' then (k, v) :: o else (k', v') :: set_prop k v o
  end.

Fixpoint string_chars (s : string) : list string :=
  match s with
  | EmptyString => []
  | String c s => String c EmptyString :: string_chars s
  end.

Definition index_props (l : list value) : properties :=
  imap (λ i v, (decimal (N.of_nat i), v)) l.

(** The own enumerable properties of a value, in the order of
    [Object.keys]: what [Object.keys], a spread and [data[key]] see. *)
Definition own_props (v : value) : properties :=
  match v with
  | VObj props => props
  | VArr elems => index_props elems
  | VStr s => index_props (VStr <$> string_chars s)
  | _ => []
  end.

(** [v[k]] and [v.k] for a [v] that is neither null nor undefined. *)
Definition get_prop (v : value) (k : string) : value :=
  default VUndefined (assoc k (own_props v)).

(** [v === undefined] *)
Definition is_undefined (v : value) : bool :=
  match v with VUndefined => true | _ => false end.

Definition is_nullish (v : value) : bool :=
  match v with VUndefined | VNull => true | _ => false end.

Definition ToBoolean (v : value) : bool :=
  match v with
  | VUndefined | VNull => false
  | VBool b => b
  | VNum (S754_zero _) | VNum S754_nan => false
  | VNum _ => true
  | VStr s => negb (String.eqb s "")
  | VArr _ | VObj _ | VPromise _ => true
  end.

Definition typeof_object (v : value) : bool :=
  match v with VNull | VArr _ | VObj _ | VPromise _ => true | _ => false end.

Definition isArray (v : value) : bool :=
  match v with VArr _ => true | _ => false end.

(** The members every object inherits from [Object.prototype]. *)
Definition Object_prototype : list string :=
  ["constructor"; "hasOwnProperty"; "isPrototypeOf"; "propertyIsEnumerable";
   "toLocaleString"; "toString"; "valueOf"; "__proto__";
   "__defineGetter__"; "__defineSetter__"; "__lookupGetter__"; "__lookupSetter__"].

Definition inherited (k : string) : bool := existsb (String.eqb k) Object_prototype.

(** [D[key]] is truthy, for a dictionary [D] of functions written as an
    object literal: [key] is an own entry, or a member that [D] inherits. *)
Definition has_entry {A} (D : list (string * A)) (key : string) : bool :=
  match assoc key D with
  | Some _ => true
  | None => inherited key
  end.

(** The values [String] converts: all but an object with an own property
    [toString] (which is no function, so that the conversion finds nothing
    to call), and the arrays that have one among their elements. *)
Fixpoint stringifiable (v : value) : bool :=
  match v with
  | VArr elems => forallb (λ e, is_nullish e || stringifiable e) elems
  | VObj props => match assoc "toString" props with Some _ => false | None => true end
  | _ => true
  end.

Section WithHost.
Context `{Host}.

Definition NumberToString (x : number) : string :=
  match x with
  | S754_nan => "NaN"
  | S754_zero _ => "0"
  | S754_infinity s => if s then "-Infinity" else "Infinity"
  | S754_finite _ _ _ =>
      match safe_integer x with
      | Some z => decimal_Z z
      | None => host_NumberToString x
      end
  end.

Definition join (sep : string) (l : list string) : string :=
  match l with
  | [] => ""
  | s :: l => fold_left (λ acc t, acc +:+ sep +:+ t) l s
  end.

(** [String(v)]. An object is converted by its [toString] method, then by
    its [valueOf]: with an own property [toString] there is no method to
    call, the inherited [valueOf] returns the object itself, and the
    conversion throws; without one, [Object.prototype.toString] answers.
    An array is converted by [join], which converts its elements. *)
Fixpoint ToString (v : value) : result string :=
  match v with
  | VUndefined => Ok "undefined"
  | VNull => Ok "null"
  | VBool b => Ok (if b then "true" else "false")
  | VNum n => Ok (NumberToString n)
  | VStr s => Ok s
  | VArr elems =>
      strs ← traverse (λ e, if is_nullish e then Ok "" else ToString e) elems;
      Ok (join "," strs)
  | VObj props =>
      match assoc "toString" props with
      | Some _ => Throw (TypeError "Cannot convert object to primitive value")
      | None => Ok "[object Object]"
      end
  | VPromise _ => Ok "[object Promise]"
  end.

(** [Number(v)]: an object is converted to a string first ([valueOf]
    returns no primitive), and throws when that does. *)
Definition ToNumber (v : value) : result number :=
  match v with
  | VUndefined => Ok NaN
  | VNull => Ok (num_of_Z 0)
  | VBool b => Ok (if b then num_of_Z 1 else num_of_Z 0)
  | VNum n => Ok n
  | VStr s => Ok (host_StringToNumber s)
  | VArr _ | VObj _ | VPromise _ => s ← ToString v; Ok (host_StringToNumber s)
  end.

(** [a + b] *)
Definition add (a b : value) : result value :=
  let prim v := match v with
                | VArr _ | VObj _ | VPromise _ => s ← ToString v; Ok (VStr s)
                | _ => Ok v
                end in
  a' ← prim a;
  b' ← prim b;
  match a', b' with
  | VStr s, _ => t ← ToString b'; Ok (VStr (s +:+ t))
  | _, VStr t => s ← ToString a'; Ok (VStr (s +:+ t))
  | _, _ => x ← ToNumber a'; y ← ToNumber b'; Ok (VNum (num_add x y))
  end.

End WithHost.

End JS.

(** ** The machine: a store of instances, a random source, a console *)

Module Machine.
Import JS.

Record object := { props : properties; frozen : bool }.

Definition loc : Type := nat.

Record state := {
  store : list object;
  (** the draws of [Math.random] to come, each the 53-bit integer [k] of
      the double [k / 2^53], and how many were taken *)
  entropy : nat → N;
  draws : nat;
  (** what [console.warn] printed, latest first *)
  console : list string;
}.

Definition M (A : Type) : Type := state → result A * state.

#[global] Instance M_ret : MRet M := λ A a st, (Ok a, st).
#[global] Instance M_bind : MBind M := λ A B f m st,
  match m st with
  | (Ok a, st') => f a st'
  | (Throw e, st') => (Throw e, st')
  end.

Definition throw {A} (e : error) : M A := λ st, (Throw e, st).

(** A call that touches nothing: it returns or throws. *)
Definition lift {A} (r : result A) : M A := λ st, (r, st).

Fixpoint for_each {A} (l : list A) (body : A → M unit) : M unit :=
  match l with
  | [] => mret tt
  | a :: l => body a;; for_each l body
  end.

Fixpoint fold_each {A B} (l : list A) (acc : B) (body : B → A → M B) : M B :=
  match l with
  | [] => mret acc
  | a :: l => acc' ← body acc a; fold_each l acc' body
  end.

Definition set_store (s : list object) (st : state) : state :=
  {| store := s; entropy := entropy st; draws := draws st; console := console st |}.

(** [new]: a fresh, empty, extensible object. *)
Definition alloc : M loc := λ st,
  (Ok (length (store st)), set_store (store st ++ [{| props := []; frozen := false |}]) st).

(** [this[k]]: an own property, or [undefined]. *)
Definition read (this : loc) (k : string) : M value := λ st,
  match store st !! this with
  | Some o => (Ok (default VUndefined (assoc k (props o))), st)
  | None => (Throw (TypeError "not an object"), st)
  end.

(** The own property [k] of [this], when it has one. *)
Definition read_own (this : loc) (k : string) : M (option value) := λ st,
  match store st !! this with
  | Some o => (Ok (assoc k (props o)), st)
  | None => (Throw (TypeError "not an object"), st)
  end.

(** [this[k] = v], in strict mode: a frozen object refuses it. *)
Definition write (this : loc) (k : string) (v : value) : M unit := λ st,
  match store st !! this with
  | Some o =>
      if frozen o then (Throw (TypeError "Cannot assign to read only property"), st)
      else (Ok tt, set_store (<[this := {| props := set_prop k v (props o); frozen := false |}]> (store st)) st)
  | None => (Throw (TypeError "not an object"), st)
  end.

(** [Object.freeze(this)] *)
Definition freeze (this : loc) : M unit := λ st,
  match store st !! this with
  | Some o => (Ok tt, set_store (<[this := {| props := props o; frozen := true |}]> (store st)) st)
  | None => (Throw (TypeError "not an object"), st)
  end.

(** [Object.keys(this)] *)
Definition keys (this : loc) : M (list string) := λ st,
  match store st !! this with
  | Some o => (Ok (fst <$> props o), st)
  | None => (Throw (TypeError "not an object"), st)
  end.

(** [Object.keys(v)] of a plain value *)
Definition Object_keys (v : value) : M (list string) :=
  if is_nullish v then throw (TypeError "Cannot convert undefined or null to object")
  else mret (fst <$> own_props v).

(** [v[k]] of a plain value *)
Definition Get (v : value) (k : string) : M value :=
  if is_nullish v then throw (TypeError "Cannot read properties of undefined or null")
  else mret (get_prop v k).

Definition console_warn (msg : string) : M unit := λ st,
  (Ok tt, {| store := store st; entropy := entropy st; draws := draws st;
             console := msg :: console st |}).

(** [Math.random()]: the next draw [k], standing for [k / 2^53]. *)
Definition Math_random : M N := λ st,
  (Ok (entropy st (draws st) mod 2 ^ 53)%N,
   {| store := store st; entropy := entropy st; draws := S (draws st);
      console := console st |}).

(** What a state shows of an instance. *)
Definition field (st : state) (this : loc) (k : string) : value :=
  match store st !! this with
  | Some o => default VUndefined (assoc k (props o))
  | None => VUndefined
  end.

Definition is_frozen (st : state) (this : loc) : bool :=
  match store st !! this with
  | Some o => frozen o
  | None => false
  end.

Definition own_keys (st : state) (this : loc) : list string :=
  match store st !! this with
  | Some o => fst <$> props o
  | None => []
  end.

End Machine.

(** ** The source: [Model.js] *)

Module Model.
Import JS Machine.

(** A value transformer, and a derivation alike: a function of one value
    that returns a value or throws. *)
Definition transformer : Type := value → result value.

(** The static side of a class that extends [Model]: its dictionaries, as
    the own entries of each in the order of their keys. *)
Record class := {
  type : value;
  API_ALIASES : list (string * string);
  PROPERTIES : list (string * transformer);
  DERIVED_PROPERTIES : list (string * (value → result value));
}.

(** The methods of [Model], and the members of [Model.prototype]. *)
Definition Model_methods : list String.string :=
  ["_diff"; "set"; "stub"; "makeUUID"; "makePaginationId"; "getType"; "toRecord"; "toJSON"].

Definition Model_prototype : list String.string := "constructor" :: Model_methods.

(** The members an instance inherits: those of [Model.prototype], and
    through it those of [Object.prototype]. *)
Definition inherited_member (k : String.string) : bool :=
  existsb (String.eqb k) Model_prototype || inherited k.

(** [this[k] === undefined], for an instance with the own properties [o]:
    an own property decides, and a member it inherits is not [undefined]. *)
Definition undefined_in (o : properties) (k : String.string) : bool :=
  match assoc k o with
  | Some v => is_undefined v
  | None => negb (inherited_member k)
  end.

(** [const fakeUUID = () => (Math.random() * 16).toFixed();]
    For the draw [k / 2^53] the product [16 * k / 2^53] is exact, and
    [toFixed()] prints the nearest integer, a tie going up. *)
Definition fakeUUID : M value :=
  k ← Math_random;
  mret (VStr (decimal ((16 * k + 2 ^ 52) / 2 ^ 53))).

Module Types.
Section WithHost.
Context `{Host}.

(** [string: val => val ? String(val) : ''] *)
Definition string (val : value) : result value :=
  if ToBoolean val then s ← ToString val; Ok (VStr s) else Ok (VStr "").

(** [number: val => val === undefined ? 0 : Number(val)] *)
Definition number (val : value) : result value :=
  if is_undefined val then Ok (VNum (num_of_Z 0)) else n ← ToNumber val; Ok (VNum n).

(** [array: val => Array.isArray(val) ? val : []] *)
Definition array (val : value) : result value :=
  if isArray val then Ok val else Ok (VArr []).

(** [nop: val => val] *)
Definition nop (val : value) : result value := Ok val.

(** [arrayOf: (type=Model.Types.nop) => val => Model.Types.array(val).map(type)]
    ([arrayOf()] is [arrayOf nop]). *)
Definition arrayOf (type : transformer) (val : value) : result value :=
  a ← array val;
  match a with
  | VArr elems => elems' ← traverse type elems; Ok (VArr elems')
  | other => Ok other
  end.

(** [bool: val => Boolean(val)] *)
Definition bool (val : value) : result value := Ok (VBool (ToBoolean val)).

(** [likes]: the [switch] compares with [===]. *)
Definition likes (val : value) : result value :=
  match val with
  | VBool true => Ok (VNum (num_of_Z 1))
  | VBool false => Ok (VNum (num_of_Z (-1)))
  | VNull => Ok (VNum (num_of_Z 0))
  | _ => Ok val
  end.
End WithHost.
End Types.

Section Methods.
Context `{Host}.
(** [this.constructor]: the class of the instance. *)
Variable C : class.

(** [makeUUID(data)] *)
Definition makeUUID (data : value) : M value :=
  uuid ← Get data "uuid";
  if ToBoolean uuid then mret uuid else
  id ← Get data "id";
  if ToBoolean id then mret id else
  console_warn "generating fake uuid";;
  fakeUUID.

(** [makePaginationId(data)]: [this.uuid || this.makeUUID(data)] *)
Definition makePaginationId (this : loc) (data : value) : M value :=
  uuid ← read this "uuid";
  if ToBoolean uuid then mret uuid else makeUUID data.

(** [getType()] *)
Definition getType : M value := mret (type C).

(** The three loops of the constructor. In the first, a raw key that
    [DERIVED_PROPERTIES[key]] finds, own or inherited, is skipped; a key
    that gets past is no inherited name, so that [API_ALIASES[key]] is an
    own entry or nothing. *)
Definition assign_fields (this : loc) (data : value) (dataKeys : list String.string) : M unit :=
  for_each dataKeys (λ key,
    if has_entry (DERIVED_PROPERTIES C) key then mret tt else
    let keyName :=
      match assoc key (API_ALIASES C) with
      | Some alias => if String.eqb alias "" then key else alias
      | None => key
      end in
    match assoc keyName (PROPERTIES C) with
    | Some typeFn =>
        v ← Get data key;
        x ← lift (typeFn v);
        write this keyName x
    | None => mret tt
    end).

(** [this[propName] === undefined] *)
Definition this_undefined (this : loc) (propName : String.string) : M Datatypes.bool :=
  own ← read_own this propName;
  mret (match own with
        | Some v => is_undefined v
        | None => negb (inherited_member propName)
        end).

Definition fill_defaults (this : loc) : M unit :=
  for_each (fst <$> PROPERTIES C) (λ propName,
    undefined ← this_undefined this propName;
    if (undefined : Datatypes.bool) then
      match assoc propName (PROPERTIES C) with
      | Some typeFn => x ← lift (typeFn VUndefined); write this propName x
      | None => throw (TypeError "not a function")
      end
    else mret tt).

(** In the third, [PROPERTIES[derivedKey]] is an own entry or nothing for
    every derived key that is no inherited name. *)
Definition derive_fields (this : loc) (data : value) : M unit :=
  for_each (fst <$> DERIVED_PROPERTIES C) (λ derivedKey,
    match assoc derivedKey (DERIVED_PROPERTIES C), assoc derivedKey (PROPERTIES C) with
    | Some derviceFn, Some typeFn =>
        raw ← lift (derviceFn data);
        x ← lift (typeFn raw);
        write this derivedKey x
    | _, _ => mret tt
    end).

(** [constructor(data, SUPER_SECRET_SHOULD_FREEZE_FLAG_THAT_ONLY_STUBS_CAN_USE)] *)
Definition constructor (data : value) (SHOULD_FREEZE_FLAG : Datatypes.bool) : M loc :=
  this ← alloc;
  dataKeys ← Object_keys data;
  assign_fields this data dataKeys;;
  fill_defaults this;;
  derive_fields this data;;
  uuid ← makeUUID data;
  write this "uuid" uuid;;
  paginationId ← makePaginationId this data;
  write this "paginationId" paginationId;;
  t ← getType;
  write this "type" t;;
  (if SHOULD_FREEZE_FLAG then mret tt else freeze this);;
  mret this.

(** [static fromJSON(obj)] *)
Definition fromJSON (obj : value) : M loc := constructor obj false.

(** [_diff(keyOrObject, value)]: the computed key is [keyOrObject] as a
    string. *)
Definition _diff (keyOrObject value : value) : result JS.value :=
  if typeof_object keyOrObject then Ok keyOrObject
  else key ← ToString keyOrObject; Ok (VObj [(key, value)]).

(** [{...a, ...b}]: the properties of [a], then those of [b], a key of
    both keeping its place and taking the value of [b]. *)
Definition spread (a b : value) : value :=
  VObj (fold_left (λ o kv, set_prop kv.1 kv.2 o) (own_props a ++ own_props b) []).

(** [toJSON()]: the own keys of an instance are no inherited names, so
    that [PROPERTIES[key]] is an own entry or nothing. *)
Definition toJSON (this : loc) : M value :=
  ks ← keys this;
  obj ← fold_each ks [] (λ obj key,
    match assoc key (PROPERTIES C) with
    | Some _ => v ← read this key; mret (set_prop key v obj)
    | None => mret obj
    end);
  uuid ← read this "uuid";
  t ← read this "type";
  mret (VObj (set_prop "type" t (set_prop "uuid" uuid obj))).

(** [set(keyOrObject, value)] *)
Definition set (this : loc) (keyOrObject value : value) : M loc :=
  json ← toJSON this;
  patch ← lift (_diff keyOrObject value);
  constructor (spread json patch) false.

(** [stub(keyOrObject, valueOrPromise, promise)] *)
Definition stub (this : loc) (keyOrObject valueOrPromise promise : value) : M loc :=
  let promise := if ToBoolean promise then promise else valueOrPromise in
  json ← toJSON this;
  patch ← lift (_diff keyOrObject valueOrPromise);
  let next := spread json patch in
  stub ← constructor next true;
  write stub "promise" promise;;
  freeze stub;;
  mret stub.

End Methods.

End Model.

(** ** What the constructor computes, as functions of the raw input

    One function per loop body, on the property list of [this]; the
    lemmas below show that the stateful code computes exactly these. *)

Module Pure.
Import JS Machine Model.

(** A loop over [l] that stops at the first step that throws. *)
Fixpoint foldM {A} (step : properties → A → result properties) (l : list A)
    (o : properties) : result properties :=
  match l with
  | [] => Ok o
  | a :: l => o' ← step o a; foldM step l o'
  end.

Section Class.
Variable C : class.

(** The canonical name of a raw key. *)
Definition canonical (key : string) : string :=
  match assoc key (API_ALIASES C) with
  | Some alias => if String.eqb alias "" then key else alias
  | None => key
  end.

Definition assigned (data : value) (o : properties) (key : string) : result properties :=
  if has_entry (DERIVED_PROPERTIES C) key then Ok o else
  match assoc (canonical key) (PROPERTIES C) with
  | Some typeFn => x ← typeFn (get_prop data key); Ok (set_prop (canonical key) x o)
  | None => Ok o
  end.

Definition defaulted (o : properties) (propName : string) : result properties :=
  if undefined_in o propName then
    match assoc propName (PROPERTIES C) with
    | Some typeFn => x ← typeFn VUndefined; Ok (set_prop propName x o)
    | None => Throw (TypeError "not a function")
    end
  else Ok o.

Definition derived (data : value) (o : properties) (derivedKey : string) : result properties :=
  match assoc derivedKey (DERIVED_PROPERTIES C), assoc derivedKey (PROPERTIES C) with
  | Some derviceFn, Some typeFn =>
      raw ← derviceFn data; x ← typeFn raw; Ok (set_prop derivedKey x o)
  | _, _ => Ok o
  end.

(** The properties of [this] after the three loops, when none throws. *)
Definition fields_of (data : value) : result properties :=
  o ← foldM (assigned data) (fst <$> own_props data) [];
  o ← foldM defaulted (fst <$> PROPERTIES C) o;
  foldM (derived data) (fst <$> DERIVED_PROPERTIES C) o.

(** The properties of the finished instance, given those the loops left
    and its uuid. *)
Definition instance_props (fields : properties) (uuid : value) : properties :=
  set_prop "type" (type C) (set_prop "paginationId" uuid (set_prop "uuid" uuid fields)).

(** The properties [toJSON] copies from an instance. *)
Definition json_of (o : properties) : properties :=
  set_prop "type" (default VUndefined (assoc "type" o))
    (set_prop "uuid" (default VUndefined (assoc "uuid" o))
       (fold_left (λ obj key,
          match assoc key (PROPERTIES C) with
          | Some _ => set_prop key (default VUndefined (assoc key o)) obj
          | None => obj
          end) (fst <$> o) [])).

(** The class writes no property that an instance inherits a member for:
    no field is named after a method of [Model], and no alias and no
    derived field is named after a member of [Object.prototype]. (A field
    may be: [constructor: T.string] is never assigned.) For such a class
    the transformer the constructor calls is always an own entry of
    [PROPERTIES], and every method is the one [Model] defines. *)
Definition proper : bool :=
  forallb (λ k, match assoc k (PROPERTIES C) with None => true | Some _ => false end)
    Model_methods
  && forallb (λ alias, negb (inherited alias.2)) (API_ALIASES C)
  && forallb (λ derivation, negb (inherited derivation.1)) (DERIVED_PROPERTIES C).

(** None of the three identity fields is declared as a field. *)
Definition identity_free : Prop :=
  assoc "uuid" (PROPERTIES C) = None ∧
  assoc "paginationId" (PROPERTIES C) = None ∧
  assoc "type" (PROPERTIES C) = None.

(** Every call the constructor may make on [data] returns: a transformer
    on the raw value of a key that resolves to it, each transformer at no
    argument, and each derivation, followed by its transformer, on [data]. *)
Definition returns_on (data : value) : Prop :=
  (∀ key typeFn,
     key ∈ fst <$> own_props data →
     has_entry (DERIVED_PROPERTIES C) key = false →
     assoc (canonical key) (PROPERTIES C) = Some typeFn →
     ∃ x, typeFn (get_prop data key) = Ok x) ∧
  (∀ k typeFn, assoc k (PROPERTIES C) = Some typeFn → ∃ d, typeFn VUndefined = Ok d) ∧
  (∀ k derviceFn typeFn,
     assoc k (DERIVED_PROPERTIES C) = Some derviceFn →
     assoc k (PROPERTIES C) = Some typeFn →
     ∃ x, derviceFn data ≫= typeFn = Ok x).

End Class.

(** The raw input [set] and [stub] hand to the constructor, for an
    instance whose properties are [o]. *)
Definition merged `{Host} (C : class) (o : properties) (keyOrObject value : value) : result JS.value :=
  patch ← _diff keyOrObject value;
  Ok (spread (VObj (json_of C o)) patch).

(** [construct(schema, toJSON(instance))]: an instance serialized and
    constructed again. *)
Definition reconstruct (C : class) (this : loc) : M loc :=
  json ← toJSON C this;
  constructor C json false.

(** The alias map renames no declared field name, nor [uuid], nor [type]. *)
Definition alias_stable (C : class) : Prop :=
  ∀ k, is_Some (assoc k (PROPERTIES C)) ∨ k = "uuid" ∨ k = "type" → canonical C k = k.

(** Every transformer of the class returns its own results unchanged. *)
Definition idempotent (C : class) : Prop :=
  ∀ k typeFn v x, assoc k (PROPERTIES C) = Some typeFn → typeFn v = Ok x → typeFn x = Ok x.

(** The draw [makeUUID] falls back to, printed. *)
Definition fallback (st : state) : value :=
  VStr (decimal ((16 * (entropy st (draws st) mod 2 ^ 53) + 2 ^ 52) / 2 ^ 53)).

Definition has_identity (data : value) : bool :=
  ToBoolean (get_prop data "uuid") || ToBoolean (get_prop data "id").

(** The value of [makeUUID(data)] in a state. *)
Definition uuid_of (data : value) (st : state) : value :=
  if ToBoolean (get_prop data "uuid") then get_prop data "uuid"
  else if ToBoolean (get_prop data "id") then get_prop data "id"
  else fallback st.

(** The state [makeUUID(data)] leaves: one draw and one warning more when
    the fallback was taken. *)
Definition after_uuid (data : value) (st : state) : state :=
  if has_identity data then st
  else {| store := store st; entropy := entropy st; draws := S (draws st);
          console := "generating fake uuid" :: console st |}.

(** A state with one more object, allocated last. *)
Definition with_new (st : state) (o : object) : state :=
  set_store (store st ++ [o]) st.

End Pure.

(** ** The schemas and inputs of the specification's scenarios *)

Module Examples.
Import JS Machine Model Pure.

(** A machine that has run nothing yet. *)
Definition boot : state :=
  {| store := []; entropy := λ _, 0%N; draws := 0; console := [] |}.

(** A host for the closed examples: none of them reaches its functions. *)
Definition no_host : Host :=
  {| host_StringToNumber := λ _, NaN; host_NumberToString := λ _, "" |}.

Definition num (z : Z) : value := VNum (num_of_Z z).

(** Fields [{a: string, b: number}]. *)
Definition AB `{Host} (kind : value) (aliases : list (string * string)) : class :=
  {| type := kind;
     API_ALIASES := aliases;
     PROPERTIES := [("a", Types.string); ("b", Types.number)];
     DERIVED_PROPERTIES := [] |}.

(** [aliasMap: {x: 'y'}], transformer [y: string]. *)
Definition Aliased `{Host} (kind : value) : class :=
  {| type := kind;
     API_ALIASES := [("x", "y")];
     PROPERTIES := [("y", Types.string)];
     DERIVED_PROPERTIES := [] |}.

(** [fieldTransformers: {total: number}],
    [derivedFields: {total: raw => raw.a + raw.b}]. *)
Definition Totals `{Host} (kind : value) : class :=
  {| type := kind;
     API_ALIASES := [];
     PROPERTIES := [("total", Types.number)];
     DERIVED_PROPERTIES := [("total", λ raw, add (get_prop raw "a") (get_prop raw "b"))] |}.

(** Fields [{score: number}]. *)
Definition Scored `{Host} (kind : value) : class :=
  {| type := kind;
     API_ALIASES := [];
     PROPERTIES := [("score", Types.number)];
     DERIVED_PROPERTIES := [] |}.

(** [PROPERTIES = {saved: T.bool}],
    [DERIVED_PROPERTIES = {saved: data => data.is_saved}]. *)
Definition Derived : class :=
  {| type := VStr "t3";
     API_ALIASES := [];
     PROPERTIES := [("saved", Types.bool)];
     DERIVED_PROPERTIES := [("saved", λ data, Ok (get_prop data "is_saved"))] |}.

(** [API_ALIASES = {name: 'title'}] where [name] is a field as well. *)
Definition Renamed : class :=
  {| type := VStr "t3";
     API_ALIASES := [("name", "title")];
     PROPERTIES := [("name", Types.nop); ("title", Types.nop)];
     DERIVED_PROPERTIES := [] |}.

(** A transformer that is not idempotent: [val => [val]]. *)
Definition Wrapped : class :=
  {| type := VStr "t3";
     API_ALIASES := [];
     PROPERTIES := [("tags", λ val, Ok (VArr [val]))];
     DERIVED_PROPERTIES := [] |}.

(** A field named as an identity field: [PROPERTIES = {uuid: T.string}]. *)
Definition Identified `{Host} : class :=
  {| type := VStr "t3";
     API_ALIASES := [];
     PROPERTIES := [("uuid", Types.string)];
     DERIVED_PROPERTIES := [] |}.

(** A field named as a member every object inherits:
    [PROPERTIES = {constructor: T.string, title: T.string}]. *)
Definition Inheriting `{Host} : class :=
  {| type := VStr "t3";
     API_ALIASES := [];
     PROPERTIES := [("constructor", Types.string); ("title", Types.string)];
     DERIVED_PROPERTIES := [] |}.

(** A field written only through an alias, under a name every object
    inherits: [API_ALIASES = {label: 'toString'}],
    [PROPERTIES = {toString: T.nop}]. *)
Definition Shadowing : class :=
  {| type := VStr "t3";
     API_ALIASES := [("label", "toString")];
     PROPERTIES := [("toString", Types.nop)];
     DERIVED_PROPERTIES := [] |}.

(** An object that [String] and [Number] cannot convert: [{toString: null}]. *)
Definition unprintable : value := VObj [("toString", VNull)].

(** No fields at all: [class Empty extends Model {}]. *)
Definition Empty : class :=
  {| type := VUndefined; API_ALIASES := []; PROPERTIES := []; DERIVED_PROPERTIES := [] |}.

(** The machine after constructing one instance (at location 0) from
    [raw], and after reconstructing it (at location 1). *)
Definition built (C : class) (raw : value) : state :=
  (constructor C raw false boot).2.

Definition rebuilt (C : class) (raw : value) : state :=
  (reconstruct C 0 (built C raw)).2.

End Examples.

(** ** The rest of [Model.js]: [toRecord] *)

Module Rest.
Import JS Machine Model.



(** A class with a field named [promise]: [PROPERTIES = {promise: T.nop}]. *)
Definition Promised : class :=
  {| type := VStr "t1";
     API_ALIASES := [];
     PROPERTIES := [("promise", Types.nop)];
     DERIVED_PROPERTIES := [] |}.

End Rest.

(** * Proofs *)

(** ** Lookups, conversions and the machine *)

Module Facts.
Import JS Machine Model Pure Examples.

Section AssocFacts.
Context {A : Type}.
Implicit Types (l : list (string * A)) (k : string).

Lemma assoc_None_iff k l : assoc k l = None ↔ k ∉ (fst <$> l).
Proof.
  induction l as [|[k' a] l IH]; csimpl.
  - split; [intros _; apply not_elem_of_nil|done].
  - destruct (String.eqb_spec k k') as [->|Hne].
    + split; [done|]. intros Hn. exfalso. apply Hn. left.
    + rewrite IH, not_elem_of_cons. tauto.
Qed.

Lemma assoc_in_keys k l : k ∈ (fst <$> l) → is_Some (assoc k l).
Proof.
  intros Hin. destruct (assoc k l) eqn:E; [by eexists|].
  by apply assoc_None_iff in E.
Qed.

Lemma assoc_Some_keys k l a : assoc k l = Some a → k ∈ (fst <$> l).
Proof.
  intros E. destruct (decide (k ∈ (fst <$> l))) as [|Hn]; [done|].
  apply assoc_None_iff in Hn. congruence.
Qed.

Lemma in_keys_iff k l : k ∈ fst <$> l ↔ is_Some (assoc k l).
Proof.
  split; [apply assoc_in_keys|]. intros [a Ha]. by eapply assoc_Some_keys.
Qed.

Lemma assoc_app k l1 l2 :
  assoc k (l1 ++ l2) = match assoc k l1 with Some a => Some a | None => assoc k l2 end.
Proof.
  induction l1 as [|[k' a] l1 IH]; simpl; [done|]. by destruct (String.eqb k k').
Qed.

Lemma assoc_Some_values k l a : assoc k l = Some a → a ∈ snd <$> l.
Proof.
  induction l as [|[k' a'] l IH]; simpl; [done|].
  destruct (String.eqb k k').
  - intros [= ->]. left.
  - intros Hk. right. by apply IH.
Qed.
End AssocFacts.

Lemma assoc_set_prop k k' v o :
  assoc k (set_prop k' v o) = if String.eqb k k' then Some v else assoc k o.
Proof.
  induction o as [|[k0 v0] o IH]; simpl.
  - by destruct (String.eqb k k').
  - destruct (String.eqb_spec k' k0) as [->|Hne]; simpl.
    + by destruct (String.eqb k k0).
    + destruct (String.eqb_spec k k0) as [->|Hne'].
      * by rewrite (proj2 (String.eqb_neq k0 k')).
      * apply IH.
Qed.

Lemma assoc_set_prop_eq k v o : assoc k (set_prop k v o) = Some v.
Proof. by rewrite assoc_set_prop, String.eqb_refl. Qed.

Lemma assoc_set_prop_ne k k' v o : k ≠ k' → assoc k (set_prop k' v o) = assoc k o.
Proof. intros Hne. by rewrite assoc_set_prop, (proj2 (String.eqb_neq k k')). Qed.

Lemma keys_set_prop k v o :
  fst <$> set_prop k v o =
  if decide (k ∈ fst <$> o) then fst <$> o else ((fst <$> o) ++ [k])%list.
Proof.
  induction o as [|[k0 v0] o IH]; csimpl; [done|].
  destruct (String.eqb_spec k k0) as [->|Hne]; csimpl.
  - rewrite decide_True by left. done.
  - rewrite IH. destruct (decide (k ∈ (fst <$> o))).
    + rewrite decide_True by (by right). done.
    + rewrite decide_False; [done|]. rewrite elem_of_cons. intros [?|?]; [congruence|done].
Qed.

Lemma in_keys_set_prop k k' v o :
  k ∈ fst <$> set_prop k' v o ↔ k = k' ∨ k ∈ fst <$> o.
Proof.
  rewrite !in_keys_iff, assoc_set_prop.
  destruct (String.eqb_spec k k') as [->|Hne].
  - split; [by left|by eexists].
  - split; [by right|]. by intros [?|?].
Qed.

Lemma NoDup_set_prop k v o : NoDup (fst <$> o) → NoDup (fst <$> set_prop k v o).
Proof.
  intros Ho. rewrite keys_set_prop. destruct (decide (k ∈ fst <$> o)); [done|].
  apply NoDup_app. split; [done|]. split; [|apply NoDup_singleton].
  intros k' Hin Hk'. apply list_elem_of_singleton in Hk' as ->. done.
Qed.

Lemma is_undefined_eq v : is_undefined v = true → v = VUndefined.
Proof. by destruct v. Qed.

Lemma inherited_is_member k : inherited k = true → inherited_member k = true.
Proof. intros Hk. unfold inherited_member. rewrite Hk. apply orb_true_r. Qed.

Lemma not_member_not_inherited k : inherited_member k = false → inherited k = false.
Proof. unfold inherited_member. by intros [_ ?]%orb_false_iff. Qed.

(** *** The conversions *)

(** An induction principle for values that reaches into arrays. *)
Section ValueInd.
Variable P : value → Prop.
Hypothesis Pundefined : P VUndefined.
Hypothesis Pnull : P VNull.
Hypothesis Pbool : ∀ b, P (VBool b).
Hypothesis Pnum : ∀ n, P (VNum n).
Hypothesis Pstr : ∀ s, P (VStr s).
Hypothesis Parr : ∀ elems, Forall P elems → P (VArr elems).
Hypothesis Pobj : ∀ props, P (VObj props).
Hypothesis Ppromise : ∀ id, P (VPromise id).

Lemma value_elements_ind : ∀ v, P v.
Proof.
  fix IH 1.
  intros [| |b|n|s|elems|props|id];
    [apply Pundefined|apply Pnull|apply Pbool|apply Pnum|apply Pstr|
    |apply Pobj|apply Ppromise].
  apply Parr. induction elems as [|e elems IHelems]; constructor; [apply IH|apply IHelems].
Qed.
End ValueInd.

Lemma traverse_Ok {A B} (f : A → result B) l :
  (∀ a, a ∈ l → ∃ b, f a = Ok b) → ∃ bs, traverse f l = Ok bs.
Proof.
  induction l as [|a l IH]; intros Hf; simpl; [by eexists|].
  destruct (Hf a) as [b ->]; [left|]. simpl.
  destruct IH as [bs ->]; [intros a' ?; apply Hf; by right|]. simpl. by eexists.
Qed.

Lemma traverse_Throw {A B} (f : A → result B) l a e :
  a ∈ l → f a = Throw e → ∃ e', traverse f l = Throw e'.
Proof.
  induction l as [|a' l IH]; intros Hin Hf; [by apply elem_of_nil in Hin|].
  apply elem_of_cons in Hin as [<-|Hin]; simpl.
  - rewrite Hf. by eexists.
  - destruct (f a'); simpl; [|by eexists].
    destruct (IH Hin Hf) as [e' ->]. by eexists.
Qed.

Lemma traverse_pure {A} (l : list A) : traverse Ok l = Ok l.
Proof. induction l as [|a l IH]; simpl; [done|]. by rewrite IH. Qed.

Lemma traverse_inv {A B} (f : A → result B) l bs :
  traverse f l = Ok bs → Forall2 (λ a b, f a = Ok b) l bs.
Proof.
  revert bs. induction l as [|a l IH]; intros bs; simpl.
  - intros [= <-]. constructor.
  - destruct (f a) as [b|] eqn:Hb; simpl; [|done].
    destruct (traverse f l) as [bs'|]; simpl; [|done].
    intros [= <-]. constructor; [done|by apply IH].
Qed.

Lemma traverse_Forall2 {A B} (f : A → result B) l bs :
  Forall2 (λ a b, f a = Ok b) l bs → traverse f l = Ok bs.
Proof.
  induction 1 as [|a b l bs Hab _ IH]; simpl; [done|]. by rewrite Hab, IH.
Qed.

(** Two passes over a list return what one pass of the two calls in a row
    returns. *)
Lemma traverse_compose {A B D} (g : A → result B) (f : B → result D) l ds :
  traverse g l ≫= traverse f = Ok ds ↔ traverse (λ a, g a ≫= f) l = Ok ds.
Proof.
  revert ds. induction l as [|a l IH]; intros ds; [done|].
  cbn [traverse]. destruct (g a) as [b|]; [|done].
  destruct (traverse g l) as [bs|] eqn:Hg.
  - change (traverse f (b :: bs) = Ok ds ↔
            (f b ≫= λ d, traverse (λ a, g a ≫= f) l ≫= λ ds', Ok (d :: ds')) = Ok ds).
    cbn [traverse]. destruct (f b) as [d|]; [|done].
    change (Ok bs ≫= traverse f) with (traverse f bs) in IH.
    destruct (traverse f bs) as [ds1|] eqn:Hf;
      destruct (traverse (λ a, g a ≫= f) l) as [ds2|] eqn:Hgf.
    + destruct (IH ds1) as [IH1 _]. specialize (IH1 eq_refl). by injection IH1 as <-.
    + destruct (IH ds1) as [IH1 _]. by specialize (IH1 eq_refl).
    + destruct (IH ds2) as [_ IH2]. by specialize (IH2 eq_refl).
    + done.
  - change ((Throw e : result (list D)) = Ok ds ↔
            (f b ≫= λ d, traverse (λ a, g a ≫= f) l ≫= λ ds', Ok (d :: ds')) = Ok ds).
    destruct (traverse (λ a, g a ≫= f) l) as [ds2|] eqn:Hgf.
    + destruct (IH ds2) as [_ IH2]. by specialize (IH2 eq_refl).
    + by destruct (f b).
Qed.

Section Conversions.
Context `{Host}.

(** [String] converts exactly the values that are [stringifiable]. *)
Lemma ToString_stringifiable v :
  (stringifiable v = true → ∃ s, ToString v = Ok s) ∧
  (stringifiable v = false → ∃ e, ToString v = Throw e).
Proof.
  induction v as [| | | | |elems IH|props|] using value_elements_ind;
    try (split; [by eexists|done]).
  - simpl. split.
    + intros Hall. rewrite forallb_forall in Hall.
      destruct (traverse_Ok (λ e, if is_nullish e then Ok "" else ToString e) elems) as [strs ->].
      * intros e He. destruct (is_nullish e) eqn:Hn; [by eexists|].
        rewrite Forall_forall in IH. apply (IH e He).
        apply list_elem_of_In, Hall in He. by rewrite Hn in He.
      * simpl. by eexists.
    + intros Hsome.
      assert (∃ e, e ∈ elems ∧ is_nullish e = false ∧ stringifiable e = false)
        as (e & He & Hn & Hs).
      { clear IH. induction elems as [|e elems IHl]; [done|]. simpl in Hsome.
        apply andb_false_iff in Hsome as [He|Hrest].
        - apply orb_false_iff in He as [? ?]. exists e. split; [left|done].
        - destruct (IHl Hrest) as (e' & ? & ?). exists e'. split; [by right|done]. }
      rewrite Forall_forall in IH. destruct (proj2 (IH e He) Hs) as [err Herr].
      destruct (traverse_Throw (λ e, if is_nullish e then Ok "" else ToString e) elems e err)
        as [e' ->]; [done|by rewrite Hn|]. simpl. by eexists.
  - simpl. destruct (assoc "toString" props); split; try done; by eexists.
Qed.

Lemma ToNumber_stringifiable v :
  (stringifiable v = true → ∃ n, ToNumber v = Ok n) ∧
  (stringifiable v = false → ∃ e, ToNumber v = Throw e).
Proof.
  destruct (ToString_stringifiable v) as [Hyes Hno].
  destruct v; try (split; [by eexists|done]); unfold ToNumber.
  - split; intros Hs.
    + destruct (Hyes Hs) as [s ->]. by eexists.
    + destruct (Hno Hs) as [e ->]. by eexists.
  - split; intros Hs.
    + destruct (Hyes Hs) as [s ->]. by eexists.
    + destruct (Hno Hs) as [e ->]. by eexists.
Qed.

(** What cannot be converted is an object or an array: it is truthy, and
    it is not [undefined]. *)
Lemma unstringifiable_truthy v : stringifiable v = false → ToBoolean v = true ∧ is_undefined v = false.
Proof. by destruct v. Qed.
End Conversions.

(** *** Running the machine on the object under construction *)

Lemma lookup_last {A} (s : list A) (o : A) : (s ++ [o]) !! length s = Some o.
Proof. by apply list_lookup_middle. Qed.

Lemma insert_last {A} (s : list A) (o o' : A) : <[length s := o']> (s ++ [o]) = s ++ [o'].
Proof.
  replace (length s) with (length s + 0) by lia.
  by rewrite insert_app_r.
Qed.

Lemma bind_Ok {A B} (m : M A) (f : A → M B) st a st' :
  m st = (Ok a, st') → (m ≫= f) st = f a st'.
Proof. unfold mbind, M_bind. by intros ->. Qed.

Lemma bind_Throw {A B} (m : M A) (f : A → M B) st e st' :
  m st = (Throw e, st') → (m ≫= f) st = (Throw e, st').
Proof. unfold mbind, M_bind. by intros ->. Qed.

Lemma alloc_run st :
  alloc st = (Ok (length (store st)), with_new st {| props := []; frozen := false |}).
Proof. done. Qed.

Section UnderConstruction.
Variables (st : state) (o : properties).
Let this : loc := length (store st).
Let now : state := with_new st {| props := o; frozen := false |}.

Lemma read_new k : read this k now = (Ok (default VUndefined (assoc k o)), now).
Proof. unfold read, now, with_new, this; simpl. by rewrite lookup_last. Qed.

Lemma this_undefined_new k : this_undefined this k now = (Ok (undefined_in o k), now).
Proof.
  unfold this_undefined, read_own, mbind, M_bind, now, with_new, this; simpl.
  by rewrite lookup_last.
Qed.

Lemma write_new k v :
  write this k v now = (Ok tt, with_new st {| props := set_prop k v o; frozen := false |}).
Proof.
  unfold write, now, with_new, this; simpl. rewrite lookup_last; simpl.
  unfold set_store; simpl. by rewrite insert_last.
Qed.

Lemma freeze_new :
  freeze this now = (Ok tt, with_new st {| props := o; frozen := true |}).
Proof.
  unfold freeze, now, with_new, this; simpl. rewrite lookup_last; simpl.
  unfold set_store; simpl. by rewrite insert_last.
Qed.
End UnderConstruction.

(** *** The constructor, loop by loop *)

Lemma decimal_nonempty n : decimal n ≠ "".
Proof.
  unfold decimal. destruct n as [|p]; simpl; [done|].
  pose proof (DecimalPos.Unsigned.to_uint_nonnil p) as Hnil.
  by destruct (Pos.to_uint p).
Qed.

Lemma fallback_truthy st : ToBoolean (fallback st) = true.
Proof.
  unfold fallback; simpl. apply negb_true_iff, String.eqb_neq, decimal_nonempty.
Qed.

Lemma uuid_of_truthy data st : ToBoolean (uuid_of data st) = true.
Proof.
  unfold uuid_of.
  destruct (ToBoolean (get_prop data "uuid")) eqn:Hu; [done|].
  destruct (ToBoolean (get_prop data "id")) eqn:Hi; [done|].
  apply fallback_truthy.
Qed.

(** [this.uuid || this.makeUUID(data)] stops at [this.uuid] when it is truthy. *)
Lemma makePaginationId_run st o uuid data :
  ToBoolean uuid = true →
  makePaginationId (length (store st)) data
    (with_new st {| props := set_prop "uuid" uuid o; frozen := false |})
  = (Ok uuid, with_new st {| props := set_prop "uuid" uuid o; frozen := false |}).
Proof.
  intros Htrue. unfold makePaginationId.
  erewrite bind_Ok by apply read_new.
  rewrite assoc_set_prop_eq; simpl. by rewrite Htrue.
Qed.

(** A loop that writes to the object under construction runs as the fold
    of its steps: to the end when every step returns, and else up to the
    step that throws, which leaves the object as far as it got. *)
Lemma for_each_run {A} (step : properties → A → result properties) (body : A → M unit)
    st (l : list A) :
  (∀ o a,
     body a (with_new st {| props := o; frozen := false |})
     = match step o a with
       | Ok o' => (Ok tt, with_new st {| props := o'; frozen := false |})
       | Throw e => (Throw e, with_new st {| props := o; frozen := false |})
       end) →
  ∀ o,
    match foldM step l o with
    | Ok o' =>
        for_each l body (with_new st {| props := o; frozen := false |})
        = (Ok tt, with_new st {| props := o'; frozen := false |})
    | Throw e =>
        ∃ o', for_each l body (with_new st {| props := o; frozen := false |})
              = (Throw e, with_new st {| props := o'; frozen := false |})
    end.
Proof.
  intros Hbody. induction l as [|a l IH]; intros o; simpl; [done|].
  specialize (Hbody o a). destruct (step o a) as [o1|e]; simpl.
  - erewrite bind_Ok by exact Hbody. apply IH.
  - exists o. by erewrite bind_Throw by exact Hbody.
Qed.

Section Constructor.
Variables (C : class) (data : value) (st : state).
Hypothesis data_object : is_nullish data = false.
Let this : loc := length (store st).
Let building (o : properties) : state := with_new st {| props := o; frozen := false |}.

Lemma assign_fields_step o key :
  (if has_entry (DERIVED_PROPERTIES C) key then mret tt else
   let keyName :=
     match assoc key (API_ALIASES C) with
     | Some alias => if String.eqb alias "" then key else alias
     | None => key
     end in
   match assoc keyName (PROPERTIES C) with
   | Some typeFn =>
       v ← Get data key;
       x ← lift (typeFn v);
       write this keyName x
   | None => mret tt
   end) (building o)
  = match assigned C data o key with
    | Ok o' => (Ok tt, building o')
    | Throw e => (Throw e, building o)
    end.
Proof.
  unfold assigned, canonical.
  destruct (has_entry (DERIVED_PROPERTIES C) key); [done|]. cbv zeta.
  destruct (assoc _ (PROPERTIES C)) as [typeFn|]; [|done].
  unfold Get. rewrite data_object.
  erewrite bind_Ok by done.
  destruct (typeFn (get_prop data key)) as [x|e]; simpl.
  - erewrite bind_Ok by done. apply write_new.
  - by erewrite bind_Throw by done.
Qed.

Lemma fill_defaults_step o propName :
  (undefined ← this_undefined this propName;
   if (undefined : Datatypes.bool) then
     match assoc propName (PROPERTIES C) with
     | Some typeFn => x ← lift (typeFn VUndefined); write this propName x
     | None => throw (TypeError "not a function")
     end
   else mret tt) (building o)
  = match defaulted C o propName with
    | Ok o' => (Ok tt, building o')
    | Throw e => (Throw e, building o)
    end.
Proof.
  erewrite bind_Ok by apply this_undefined_new.
  unfold defaulted. destruct (undefined_in o propName); [|done].
  destruct (assoc propName (PROPERTIES C)) as [typeFn|]; [|done].
  destruct (typeFn VUndefined) as [x|e]; simpl.
  - erewrite bind_Ok by done. apply write_new.
  - by erewrite bind_Throw by done.
Qed.

Lemma derive_fields_step o derivedKey :
  match assoc derivedKey (DERIVED_PROPERTIES C), assoc derivedKey (PROPERTIES C) with
  | Some derviceFn, Some typeFn =>
      raw ← lift (derviceFn data);
      x ← lift (typeFn raw);
      write this derivedKey x
  | _, _ => mret tt
  end (building o)
  = match derived C data o derivedKey with
    | Ok o' => (Ok tt, building o')
    | Throw e => (Throw e, building o)
    end.
Proof.
  unfold derived.
  destruct (assoc derivedKey (DERIVED_PROPERTIES C)) as [derviceFn|]; [|done].
  destruct (assoc derivedKey (PROPERTIES C)) as [typeFn|]; [|done].
  destruct (derviceFn data) as [raw|e]; simpl.
  - erewrite bind_Ok by done.
    destruct (typeFn raw) as [x|e]; simpl.
    + erewrite bind_Ok by done. apply write_new.
    + by erewrite bind_Throw by done.
  - by erewrite bind_Throw by done.
Qed.

Lemma assign_fields_run dataKeys o :
  match foldM (assigned C data) dataKeys o with
  | Ok o' => assign_fields C this data dataKeys (building o) = (Ok tt, building o')
  | Throw e => ∃ o', assign_fields C this data dataKeys (building o) = (Throw e, building o')
  end.
Proof. apply (for_each_run (assigned C data)). intros. apply assign_fields_step. Qed.

Lemma fill_defaults_run o :
  match foldM (defaulted C) (fst <$> PROPERTIES C) o with
  | Ok o' => fill_defaults C this (building o) = (Ok tt, building o')
  | Throw e => ∃ o', fill_defaults C this (building o) = (Throw e, building o')
  end.
Proof. apply (for_each_run (defaulted C)). intros. apply fill_defaults_step. Qed.

Lemma derive_fields_run o :
  match foldM (derived C data) (fst <$> DERIVED_PROPERTIES C) o with
  | Ok o' => derive_fields C this data (building o) = (Ok tt, building o')
  | Throw e => ∃ o', derive_fields C this data (building o) = (Throw e, building o')
  end.
Proof. apply (for_each_run (derived C data)). intros. apply derive_fields_step. Qed.

Lemma makeUUID_run obj :
  makeUUID data (with_new st obj) = (Ok (uuid_of data st), with_new (after_uuid data st) obj).
Proof.
  unfold makeUUID, Get, uuid_of, after_uuid, has_identity. rewrite data_object.
  erewrite bind_Ok by done.
  destruct (ToBoolean (get_prop data "uuid")); [done|].
  erewrite bind_Ok by done.
  destruct (ToBoolean (get_prop data "id")); done.
Qed.

Lemma store_after_uuid : store (after_uuid data st) = store st.
Proof. unfold after_uuid. by destruct (has_identity data). Qed.

(** What the constructor does once its three loops are through. *)
Lemma identify_run (flag : bool) fields :
  ((uuid ← makeUUID data;
    write this "uuid" uuid;;
    paginationId ← makePaginationId this data;
    write this "paginationId" paginationId;;
    t ← getType C;
    write this "type" t;;
    (if flag then mret tt else freeze this);;
    mret this) : M loc) (building fields)
  = (Ok this, with_new (after_uuid data st)
                {| props := instance_props C fields (uuid_of data st); frozen := negb flag |}).
Proof.
  erewrite bind_Ok by apply makeUUID_run.
  unfold this. rewrite <- store_after_uuid.
  erewrite bind_Ok by apply write_new.
  erewrite bind_Ok by (apply makePaginationId_run; apply uuid_of_truthy).
  erewrite bind_Ok by apply write_new.
  unfold getType. erewrite bind_Ok by done.
  erewrite bind_Ok by apply write_new.
  destruct flag; simpl.
  - by erewrite bind_Ok by done.
  - by erewrite bind_Ok by apply freeze_new.
Qed.

(** The constructor allocates one object and runs the three loops on it.
    When they are through it completes the object as [instance_props] says;
    when one of them throws, so does the constructor, leaving the object as
    far as it got. *)
Lemma constructor_run flag :
  match fields_of C data with
  | Ok fields =>
      constructor C data flag st
      = (Ok this, with_new (after_uuid data st)
                    {| props := instance_props C fields (uuid_of data st);
                       frozen := negb flag |})
  | Throw e =>
      ∃ o, constructor C data flag st = (Throw e, building o)
  end.
Proof.
  unfold constructor, fields_of.
  erewrite bind_Ok by apply alloc_run.
  unfold Object_keys. rewrite data_object.
  erewrite bind_Ok by done.
  pose proof (assign_fields_run (fst <$> own_props data) []) as Hassign.
  destruct (foldM (assigned C data) _ []) as [o1|e]; simpl;
    [|destruct Hassign as [o' Hthrow]; exists o'; by erewrite bind_Throw by exact Hthrow].
  erewrite bind_Ok by exact Hassign.
  pose proof (fill_defaults_run o1) as Hfill.
  destruct (foldM (defaulted C) _ o1) as [o2|e]; simpl;
    [|destruct Hfill as [o' Hthrow]; exists o'; by erewrite bind_Throw by exact Hthrow].
  erewrite bind_Ok by exact Hfill.
  pose proof (derive_fields_run o2) as Hderive.
  destruct (foldM (derived C data) _ o2) as [o3|e]; simpl;
    [|destruct Hderive as [o' Hthrow]; exists o'; by erewrite bind_Throw by exact Hthrow].
  erewrite bind_Ok by exact Hderive.
  apply identify_run.
Qed.

Lemma constructor_Ok flag fields :
  fields_of C data = Ok fields →
  constructor C data flag st
  = (Ok this, with_new (after_uuid data st)
                {| props := instance_props C fields (uuid_of data st); frozen := negb flag |}).
Proof. intros Hfields. pose proof (constructor_run flag) as Hrun. by rewrite Hfields in Hrun. Qed.

Lemma constructor_Throw flag e :
  fields_of C data = Throw e →
  ∃ o, constructor C data flag st = (Throw e, building o).
Proof. intros Hfields. pose proof (constructor_run flag) as Hrun. by rewrite Hfields in Hrun. Qed.
End Constructor.

Lemma constructor_nullish C data flag st :
  is_nullish data = true →
  constructor C data flag st
  = (Throw (TypeError "Cannot convert undefined or null to object"),
     with_new st {| props := []; frozen := false |}).
Proof.
  intros Hn. unfold constructor.
  erewrite bind_Ok by apply alloc_run.
  unfold Object_keys. rewrite Hn. done.
Qed.

(** Every construction that returns is one described by [constructor_Ok]. *)
Lemma constructor_inv C data flag st this st' :
  constructor C data flag st = (Ok this, st') →
  ∃ fields,
    is_nullish data = false ∧ fields_of C data = Ok fields ∧
    this = length (store st) ∧
    st' = with_new (after_uuid data st)
            {| props := instance_props C fields (uuid_of data st); frozen := negb flag |}.
Proof.
  intros Hrun. destruct (is_nullish data) eqn:Hdata.
  - rewrite constructor_nullish in Hrun by done. discriminate Hrun.
  - destruct (fields_of C data) as [fields|e] eqn:Hfields.
    + rewrite (constructor_Ok C data st Hdata flag fields Hfields) in Hrun.
      exists fields. by inversion Hrun.
    + destruct (constructor_Throw C data st Hdata flag e Hfields) as [o Hthrow].
      rewrite Hthrow in Hrun. discriminate Hrun.
Qed.


(** *** [toJSON], [set] and [stub] *)

Section Methods.
Context `{Host}.
Variables (C : class) (st : state) (this : loc) (obj : object).
Hypothesis this_obj : store st !! this = Some obj.

Lemma read_run k : read this k st = (Ok (default VUndefined (assoc k (props obj))), st).
Proof. unfold read. by rewrite this_obj. Qed.

Lemma toJSON_loop ks acc :
  fold_each ks acc (λ json key,
    match assoc key (PROPERTIES C) with
    | Some _ => v ← read this key; mret (set_prop key v json)
    | None => mret json
    end) st
  = (Ok (fold_left (λ json key,
           match assoc key (PROPERTIES C) with
           | Some _ => set_prop key (default VUndefined (assoc key (props obj))) json
           | None => json
           end) ks acc), st).
Proof.
  revert acc. induction ks as [|key ks IH]; intros acc; simpl; [done|].
  destruct (assoc key (PROPERTIES C)).
  - erewrite bind_Ok; [apply IH|].
    by erewrite bind_Ok by apply read_run.
  - erewrite bind_Ok by done. apply IH.
Qed.

Lemma toJSON_run : toJSON C this st = (Ok (VObj (json_of C (props obj))), st).
Proof.
  unfold toJSON, json_of.
  erewrite bind_Ok by (unfold keys; by rewrite this_obj).
  erewrite bind_Ok by apply toJSON_loop.
  erewrite bind_Ok by apply read_run.
  by erewrite bind_Ok by apply read_run.
Qed.

(** [set] is the constructor on the merged input, when the patch can be
    made. *)
Lemma set_run keyOrObject value :
  set C this keyOrObject value st
  = match merged C (props obj) keyOrObject value with
    | Ok next => constructor C next false st
    | Throw e => (Throw e, st)
    end.
Proof.
  unfold set, merged.
  erewrite bind_Ok by apply toJSON_run.
  destruct (_diff keyOrObject value) as [patch|e]; simpl.
  - by erewrite bind_Ok by done.
  - by erewrite bind_Throw by done.
Qed.

(** [stub] as well, without freezing; it then attaches the handle and
    freezes. *)
Lemma stub_run keyOrObject valueOrPromise promise :
  stub C this keyOrObject valueOrPromise promise st
  = match merged C (props obj) keyOrObject valueOrPromise with
    | Ok next =>
        match constructor C next true st with
        | (Ok new, st') =>
            (write new "promise" (if ToBoolean promise then promise else valueOrPromise);;
             freeze new;; mret new) st'
        | (Throw e, st') => (Throw e, st')
        end
    | Throw e => (Throw e, st)
    end.
Proof.
  unfold stub, merged.
  erewrite bind_Ok by apply toJSON_run.
  destruct (_diff keyOrObject valueOrPromise) as [patch|e]; simpl.
  - erewrite bind_Ok by done. unfold mbind at 1, M_bind at 1.
    by destruct (constructor C _ true st) as [[new|e] st'].
  - by erewrite bind_Throw by done.
Qed.
End Methods.

(** *** What a state shows of the new object and of the older ones *)

Lemma field_new st o k :
  field (with_new st o) (length (store st)) k = default VUndefined (assoc k (props o)).
Proof. unfold field, with_new; simpl. by rewrite lookup_last. Qed.

Lemma is_frozen_new st o : is_frozen (with_new st o) (length (store st)) = frozen o.
Proof. unfold is_frozen, with_new; simpl. by rewrite lookup_last. Qed.

Lemma own_keys_new st o : own_keys (with_new st o) (length (store st)) = fst <$> props o.
Proof. unfold own_keys, with_new; simpl. by rewrite lookup_last. Qed.

Lemma store_old st o (this : loc) obj :
  store st !! this = Some obj → store (with_new st o) !! this = Some obj.
Proof.
  intros Hthis. unfold with_new; simpl.
  rewrite lookup_app_l; [done|]. by eapply lookup_lt_Some.
Qed.

Lemma field_constructed data st o k :
  field (with_new (after_uuid data st) o) (length (store st)) k
  = default VUndefined (assoc k (props o)).
Proof. rewrite <- (store_after_uuid data st). apply field_new. Qed.

Lemma is_frozen_constructed data st o :
  is_frozen (with_new (after_uuid data st) o) (length (store st)) = frozen o.
Proof. rewrite <- (store_after_uuid data st). apply is_frozen_new. Qed.

Lemma own_keys_constructed data st o :
  own_keys (with_new (after_uuid data st) o) (length (store st)) = fst <$> props o.
Proof. rewrite <- (store_after_uuid data st). apply own_keys_new. Qed.

Lemma store_constructed data st o :
  store (with_new (after_uuid data st) o) = store st ++ [o].
Proof. unfold with_new; simpl. by rewrite store_after_uuid. Qed.

Lemma lookup_constructed data st o :
  store (with_new (after_uuid data st) o) !! length (store st) = Some o.
Proof. rewrite store_constructed. apply lookup_last. Qed.

Lemma length_constructed data st o :
  length (store (with_new (after_uuid data st) o)) = S (length (store st)).
Proof. rewrite store_constructed, length_app; simpl. lia. Qed.

(** The stub's last two steps, on the instance just constructed. *)
Lemma attach_run data st fields promise :
  (write (length (store st)) "promise" promise;;
   freeze (length (store st));; mret (length (store st)))
    (with_new (after_uuid data st) {| props := fields; frozen := negb true |})
  = (Ok (length (store st)),
     with_new (after_uuid data st)
       {| props := set_prop "promise" promise fields; frozen := true |}).
Proof.
  rewrite <- (store_after_uuid data st).
  erewrite bind_Ok by apply write_new.
  by erewrite bind_Ok by apply freeze_new.
Qed.

Section Identity.
Variables (C : class) (fields : properties) (uuid : value).

Lemma field_instance k :
  k ≠ "uuid" → k ≠ "paginationId" → k ≠ "type" →
  assoc k (instance_props C fields uuid) = assoc k fields.
Proof.
  intros. unfold instance_props. by rewrite !assoc_set_prop_ne.
Qed.

Lemma instance_uuid : assoc "uuid" (instance_props C fields uuid) = Some uuid.
Proof.
  unfold instance_props.
  rewrite (assoc_set_prop_ne "uuid" "type"), (assoc_set_prop_ne "uuid" "paginationId") by done.
  apply assoc_set_prop_eq.
Qed.

Lemma instance_paginationId : assoc "paginationId" (instance_props C fields uuid) = Some uuid.
Proof.
  unfold instance_props. rewrite (assoc_set_prop_ne "paginationId" "type") by done.
  apply assoc_set_prop_eq.
Qed.

Lemma instance_type : assoc "type" (instance_props C fields uuid) = Some (type C).
Proof. apply assoc_set_prop_eq. Qed.

Lemma instance_keys k :
  k ∈ fst <$> instance_props C fields uuid ↔
  k ∈ fst <$> fields ∨ k = "uuid" ∨ k = "paginationId" ∨ k = "type".
Proof. unfold instance_props. rewrite !in_keys_set_prop. tauto. Qed.

Lemma NoDup_instance_props :
  NoDup (fst <$> fields) → NoDup (fst <$> instance_props C fields uuid).
Proof. intros Hf. unfold instance_props. by do 3 apply NoDup_set_prop. Qed.
End Identity.

End Facts.

(** ** The three loops of the constructor, read at one field *)

Module Fields.
Import JS Machine Model Pure Examples Facts.

(** *** Folds that return *)

Lemma foldM_invariant {A} (step : properties → A → result properties)
    (P : properties → Prop) l o o' :
  foldM step l o = Ok o' →
  (∀ o a o', a ∈ l → P o → step o a = Ok o' → P o') →
  P o → P o'.
Proof.
  revert o. induction l as [|a l IH]; intros o; simpl.
  - by intros [= <-].
  - destruct (step o a) as [o1|] eqn:Ha; simpl; [|done].
    intros Hrun Hstep Ho. apply (IH o1 Hrun).
    + intros o2 a' o3 ?. apply Hstep. by right.
    + eapply (Hstep o a o1); [left|done..].
Qed.

Lemma foldM_Ok {A} (step : properties → A → result properties) l o :
  (∀ o a, a ∈ l → ∃ o', step o a = Ok o') → ∃ o', foldM step l o = Ok o'.
Proof.
  revert o. induction l as [|a l IH]; intros o Hstep; simpl; [by eexists|].
  destruct (Hstep o a) as [o1 ->]; [left|]. simpl.
  apply IH. intros o2 a' ?. apply Hstep. by right.
Qed.

Lemma foldM_app {A} (step : properties → A → result properties) l1 l2 o :
  foldM step (l1 ++ l2) o = foldM step l1 o ≫= foldM step l2.
Proof.
  revert o. induction l1 as [|a l1 IH]; intros o; simpl; [done|].
  destruct (step o a); simpl; [apply IH|done].
Qed.

Lemma decide_elem_of_cons_ne {A} (k p : string) ps (a b : A) :
  k ≠ p →
  (if decide (k ∈ p :: ps) then a else b) = (if decide (k ∈ ps) then a else b).
Proof.
  intros Hne. destruct (decide (k ∈ ps)) as [Hin|Hout].
  - rewrite decide_True by (by right). done.
  - rewrite decide_False by (rewrite elem_of_cons; intros [?|?]; done). done.
Qed.

Section Steps.
Variables (C : class) (data : value).

(** What one step of each loop does, when it returns. *)
Lemma assigned_inv o key o' :
  assigned C data o key = Ok o' →
  o' = o ∨
  ∃ typeFn x,
    has_entry (DERIVED_PROPERTIES C) key = false ∧
    assoc (canonical C key) (PROPERTIES C) = Some typeFn ∧
    typeFn (get_prop data key) = Ok x ∧
    o' = set_prop (canonical C key) x o.
Proof.
  unfold assigned. destruct (has_entry _ key); [intros [= <-]; by left|].
  destruct (assoc _ (PROPERTIES C)) as [typeFn|]; [|intros [= <-]; by left].
  destruct (typeFn _) as [x|] eqn:Hx; simpl; [|done].
  intros [= <-]. right. by exists typeFn, x.
Qed.

Lemma defaulted_inv o propName o' :
  defaulted C o propName = Ok o' →
  (undefined_in o propName = false ∧ o' = o) ∨
  ∃ typeFn d,
    undefined_in o propName = true ∧
    assoc propName (PROPERTIES C) = Some typeFn ∧
    typeFn VUndefined = Ok d ∧
    o' = set_prop propName d o.
Proof.
  unfold defaulted. destruct (undefined_in o propName); [|intros [= <-]; by left].
  destruct (assoc _ (PROPERTIES C)) as [typeFn|]; [|done].
  destruct (typeFn _) as [d|] eqn:Hd; simpl; [|done].
  intros [= <-]. right. by exists typeFn, d.
Qed.

Lemma derived_inv o derivedKey o' :
  derived C data o derivedKey = Ok o' →
  (o' = o ∧
   (assoc derivedKey (DERIVED_PROPERTIES C) = None ∨
    assoc derivedKey (PROPERTIES C) = None)) ∨
  ∃ derviceFn typeFn raw x,
    assoc derivedKey (DERIVED_PROPERTIES C) = Some derviceFn ∧
    assoc derivedKey (PROPERTIES C) = Some typeFn ∧
    derviceFn data = Ok raw ∧ typeFn raw = Ok x ∧
    o' = set_prop derivedKey x o.
Proof.
  unfold derived.
  destruct (assoc _ (DERIVED_PROPERTIES C)) as [derviceFn|];
    [|intros [= <-]; left; split; [done|by left]].
  destruct (assoc _ (PROPERTIES C)) as [typeFn|];
    [|intros [= <-]; left; split; [done|by right]].
  destruct (derviceFn data) as [raw|] eqn:Hraw; simpl; [|done].
  destruct (typeFn raw) as [x|] eqn:Hx; simpl; [|done].
  intros [= <-]. right. by exists derviceFn, typeFn, raw, x.
Qed.

(** No loop removes a property. *)
Lemma assigned_keeps o keys o' k :
  foldM (assigned C data) keys o = Ok o' → is_Some (assoc k o) → is_Some (assoc k o').
Proof.
  intros Hrun Hk.
  apply (foldM_invariant _ (λ o, is_Some (assoc k o)) _ _ _ Hrun); [|exact Hk].
  intros o1 key o2 _ Ho1 [->|(typeFn & x & _ & _ & _ & ->)]%assigned_inv; [done|].
  rewrite assoc_set_prop. by destruct (String.eqb k _).
Qed.

Lemma defaulted_keeps o propNames o' k :
  foldM (defaulted C) propNames o = Ok o' → is_Some (assoc k o) → is_Some (assoc k o').
Proof.
  intros Hrun Hk.
  apply (foldM_invariant _ (λ o, is_Some (assoc k o)) _ _ _ Hrun); [|exact Hk].
  intros o1 p o2 _ Ho1 [[_ ->]|(typeFn & d & _ & _ & _ & ->)]%defaulted_inv; [done|].
  rewrite assoc_set_prop. by destruct (String.eqb k _).
Qed.

Lemma derived_keeps o derivedKeys o' k :
  foldM (derived C data) derivedKeys o = Ok o' → is_Some (assoc k o) → is_Some (assoc k o').
Proof.
  intros Hrun Hk.
  apply (foldM_invariant _ (λ o, is_Some (assoc k o)) _ _ _ Hrun); [|exact Hk].
  intros o1 p o2 _ Ho1 [[-> _]|(derviceFn & typeFn & raw & x & _ & _ & _ & _ & ->)]%derived_inv;
    [done|].
  rewrite assoc_set_prop. by destruct (String.eqb k _).
Qed.

(** No loop makes a list with a key twice. *)
Lemma assigned_NoDup o keys o' :
  foldM (assigned C data) keys o = Ok o' → NoDup (fst <$> o) → NoDup (fst <$> o').
Proof.
  intros Hrun Ho.
  apply (foldM_invariant _ (λ o, NoDup (fst <$> o)) _ _ _ Hrun); [|exact Ho].
  intros o1 key o2 _ Ho1 [->|(typeFn & x & _ & _ & _ & ->)]%assigned_inv; [done|].
  by apply NoDup_set_prop.
Qed.

Lemma defaulted_NoDup o propNames o' :
  foldM (defaulted C) propNames o = Ok o' → NoDup (fst <$> o) → NoDup (fst <$> o').
Proof.
  intros Hrun Ho.
  apply (foldM_invariant _ (λ o, NoDup (fst <$> o)) _ _ _ Hrun); [|exact Ho].
  intros o1 p o2 _ Ho1 [[_ ->]|(typeFn & d & _ & _ & _ & ->)]%defaulted_inv; [done|].
  by apply NoDup_set_prop.
Qed.

Lemma derived_NoDup o derivedKeys o' :
  foldM (derived C data) derivedKeys o = Ok o' → NoDup (fst <$> o) → NoDup (fst <$> o').
Proof.
  intros Hrun Ho.
  apply (foldM_invariant _ (λ o, NoDup (fst <$> o)) _ _ _ Hrun); [|exact Ho].
  intros o1 p o2 _ Ho1 [[-> _]|(derviceFn & typeFn & raw & x & _ & _ & _ & _ & ->)]%derived_inv;
    [done|].
  by apply NoDup_set_prop.
Qed.
End Steps.

Section Loops.
Variables (C : class) (data : value) (k : string).

(** *** The first loop *)

(** Raw keys that are skipped, or whose canonical name is not [k], leave
    [k] alone. *)
Lemma assigned_other keys o o' :
  foldM (assigned C data) keys o = Ok o' →
  (∀ key, key ∈ keys →
     has_entry (DERIVED_PROPERTIES C) key = true ∨ canonical C key ≠ k) →
  assoc k o' = assoc k o.
Proof.
  intros Hrun Hother.
  apply (foldM_invariant _ (λ o', assoc k o' = assoc k o) _ _ _ Hrun); [|exact eq_refl].
  intros o1 key o2 Hkey Ho1 [->|(typeFn & x & Hentry & _ & _ & ->)]%assigned_inv; [done|].
  rewrite assoc_set_prop_ne; [done|].
  intros ->. destruct (Hother key Hkey) as [Hskipped|Hne]; [congruence|done].
Qed.

(** The first loop writes declared fields only. *)
Lemma assigned_undeclared keys o o' :
  foldM (assigned C data) keys o = Ok o' →
  assoc k (PROPERTIES C) = None →
  assoc k o' = assoc k o.
Proof.
  intros Hrun Hk.
  apply (foldM_invariant _ (λ o', assoc k o' = assoc k o) _ _ _ Hrun); [|exact eq_refl].
  intros o1 key o2 Hkey Ho1 [->|(typeFn & x & _ & Hdeclared & _ & ->)]%assigned_inv; [done|].
  rewrite assoc_set_prop_ne; [done|]. intros ->. congruence.
Qed.

(** What the first loop leaves in a declared field came out of its
    transformer. *)
Lemma assigned_image typeFn keys o o' :
  foldM (assigned C data) keys o = Ok o' →
  assoc k (PROPERTIES C) = Some typeFn →
  assoc k o' = assoc k o ∨ ∃ y x, typeFn y = Ok x ∧ assoc k o' = Some x.
Proof.
  intros Hrun Hk.
  apply (foldM_invariant _
           (λ o', assoc k o' = assoc k o ∨ ∃ y x, typeFn y = Ok x ∧ assoc k o' = Some x)
           _ _ _ Hrun); [|exact (or_introl eq_refl)].
  intros o1 key o2 Hkey Ho1 [->|(typeFn' & x & _ & Hdeclared & Hx & ->)]%assigned_inv; [done|].
  destruct (decide (k = canonical C key)) as [->|Hne].
  - right. exists (get_prop data key), x. rewrite assoc_set_prop_eq. split; [congruence|done].
  - by rewrite assoc_set_prop_ne.
Qed.

(** The last raw key that resolves to a field decides it. *)
Lemma assigned_last typeFn earlier key o o' :
  foldM (assigned C data) (earlier ++ [key]) o = Ok o' →
  has_entry (DERIVED_PROPERTIES C) key = false →
  assoc (canonical C key) (PROPERTIES C) = Some typeFn →
  ∃ x, typeFn (get_prop data key) = Ok x ∧ assoc (canonical C key) o' = Some x.
Proof.
  rewrite foldM_app. destruct (foldM _ earlier o) as [o1|]; simpl; [|done].
  unfold assigned. intros Hrun Hentry Hdeclared. rewrite Hentry, Hdeclared in Hrun.
  destruct (typeFn _) as [x|]; simpl in Hrun; [|done].
  injection Hrun as <-. exists x. by rewrite assoc_set_prop_eq.
Qed.

(** Raw keys none of which is renamed: a declared one that is not skipped
    ends up holding its coerced raw value. *)
Lemma assigned_plain typeFn keys o o' :
  foldM (assigned C data) keys o = Ok o' →
  (∀ key, key ∈ keys →
     has_entry (DERIVED_PROPERTIES C) key = true ∨ canonical C key = key) →
  has_entry (DERIVED_PROPERTIES C) k = false →
  assoc k (PROPERTIES C) = Some typeFn →
  k ∈ keys →
  ∃ x, typeFn (get_prop data k) = Ok x ∧ assoc k o' = Some x.
Proof.
  revert o. induction keys as [|key keys IH]; intros o Hrun Hplain Hentry Hk Hin.
  - by apply elem_of_nil in Hin.
  - simpl in Hrun. destruct (assigned C data o key) as [o1|] eqn:Hstep; simpl in Hrun; [|done].
    destruct (decide (k ∈ keys)) as [Hlater|Hnot].
    + apply (IH o1); [done| |done|done|done]. intros key' ?. apply Hplain. by right.
    + apply elem_of_cons in Hin as [<-|?]; [|done].
      destruct (Hplain k) as [?|Hcan]; [left|congruence|].
      unfold assigned in Hstep. rewrite Hentry, Hcan, Hk in Hstep.
      destruct (typeFn _) as [x|]; simpl in Hstep; [|done].
      injection Hstep as <-. exists x. split; [done|].
      rewrite (assigned_other keys _ o' Hrun), assoc_set_prop_eq; [done|].
      intros key' Hkey'. destruct (Hplain key') as [?|Hcan']; [by right|by left|].
      right. rewrite Hcan'. by intros ->.
Qed.

(** *** The second loop *)

Lemma defaulted_other propNames o o' :
  foldM (defaulted C) propNames o = Ok o' →
  k ∉ propNames →
  assoc k o' = assoc k o.
Proof.
  intros Hrun Hout.
  apply (foldM_invariant _ (λ o', assoc k o' = assoc k o) _ _ _ Hrun); [|exact eq_refl].
  intros o1 p o2 Hp Ho1 [[_ ->]|(typeFn & d & _ & _ & _ & ->)]%defaulted_inv; [done|].
  rewrite assoc_set_prop_ne; [done|]. by intros ->.
Qed.

(** The second loop gives a declared field that reads [undefined] its
    transformer's value at no argument, and touches nothing else. *)
Lemma defaulted_at propNames o o' :
  foldM (defaulted C) propNames o = Ok o' →
  k ∈ propNames →
  if undefined_in o k
  then ∃ typeFn d,
         assoc k (PROPERTIES C) = Some typeFn ∧ typeFn VUndefined = Ok d ∧
         assoc k o' = Some d
  else assoc k o' = assoc k o.
Proof.
  revert o. induction propNames as [|p propNames IH]; intros o Hrun Hin.
  - by apply elem_of_nil in Hin.
  - simpl in Hrun. destruct (defaulted C o p) as [o1|] eqn:Hstep; simpl in Hrun; [|done].
    destruct (decide (k = p)) as [<-|Hne].
    + apply defaulted_inv in Hstep as [[Hdef ->]|(typeFn & d & Hundef & Hk & Hd & ->)].
      * rewrite Hdef. destruct (decide (k ∈ propNames)) as [Hlater|Hnot].
        -- specialize (IH o Hrun Hlater). by rewrite Hdef in IH.
        -- by apply defaulted_other with propNames.
      * rewrite Hundef. exists typeFn, d. do 2 (split; [done|]).
        destruct (decide (k ∈ propNames)) as [Hlater|Hnot].
        -- specialize (IH _ Hrun Hlater). unfold undefined_in in IH.
           rewrite assoc_set_prop_eq in IH.
           destruct (is_undefined d).
           ++ destruct IH as (typeFn' & d' & Hk' & Hd' & ->). congruence.
           ++ exact IH.
        -- by rewrite (defaulted_other propNames _ o' Hrun), assoc_set_prop_eq.
    + assert (assoc k o1 = assoc k o) as Hsame.
      { apply defaulted_inv in Hstep as [[_ ->]|(typeFn & d & _ & _ & _ & ->)]; [done|].
        by apply assoc_set_prop_ne. }
      apply elem_of_cons in Hin as [?|Hin]; [done|].
      specialize (IH o1 Hrun Hin). unfold undefined_in in IH |- *.
      by rewrite Hsame in IH.
Qed.

(** What the second loop leaves in a declared field it changed came out
    of its transformer. *)
Lemma defaulted_image typeFn propNames o o' :
  foldM (defaulted C) propNames o = Ok o' →
  assoc k (PROPERTIES C) = Some typeFn →
  assoc k o' = assoc k o ∨ ∃ y x, typeFn y = Ok x ∧ assoc k o' = Some x.
Proof.
  intros Hrun Hk. destruct (decide (k ∈ propNames)) as [Hin|Hout].
  - pose proof (defaulted_at propNames o o' Hrun Hin) as Hat.
    destruct (undefined_in o k); [|by left].
    destruct Hat as (typeFn' & d & Hk' & Hd & Ho'). right. exists VUndefined, d.
    split; [congruence|done].
  - left. by apply defaulted_other with propNames.
Qed.

(** *** The third loop *)

Lemma derived_other derivedKeys o o' :
  foldM (derived C data) derivedKeys o = Ok o' →
  k ∉ derivedKeys ∨ assoc k (DERIVED_PROPERTIES C) = None ∨ assoc k (PROPERTIES C) = None →
  assoc k o' = assoc k o.
Proof.
  intros Hrun Hout.
  apply (foldM_invariant _ (λ o', assoc k o' = assoc k o) _ _ _ Hrun); [|exact eq_refl].
  intros o1 p o2 Hp Ho1
    [[-> _]|(derviceFn & typeFn & raw & x & Hd & Ht & _ & _ & ->)]%derived_inv; [done|].
  rewrite assoc_set_prop_ne; [done|]. intros ->.
  destruct Hout as [?|[?|?]]; [done|congruence|congruence].
Qed.

(** The third loop gives a derived, declared field the transformer's value
    at the derivation of the raw input, and touches nothing else. *)
Lemma derived_at derviceFn typeFn derivedKeys o o' :
  foldM (derived C data) derivedKeys o = Ok o' →
  k ∈ derivedKeys →
  assoc k (DERIVED_PROPERTIES C) = Some derviceFn →
  assoc k (PROPERTIES C) = Some typeFn →
  ∃ raw x, derviceFn data = Ok raw ∧ typeFn raw = Ok x ∧ assoc k o' = Some x.
Proof.
  intros Hrun Hin Hd Ht. revert o Hrun.
  induction derivedKeys as [|p derivedKeys IH]; intros o Hrun.
  - by apply elem_of_nil in Hin.
  - simpl in Hrun. destruct (derived C data o p) as [o1|] eqn:Hstep; simpl in Hrun; [|done].
    destruct (decide (k ∈ derivedKeys)) as [Hlater|Hnot]; [by apply (IH Hlater o1)|].
    apply elem_of_cons in Hin as [<-|?]; [|done].
    unfold derived in Hstep. rewrite Hd, Ht in Hstep.
    destruct (derviceFn data) as [raw|]; simpl in Hstep; [|done].
    destruct (typeFn raw) as [x|] eqn:Hx; simpl in Hstep; [|done].
    injection Hstep as <-. exists raw, x. do 2 (split; [done|]).
    rewrite (derived_other derivedKeys _ o' Hrun) by (by left).
    apply assoc_set_prop_eq.
Qed.
End Loops.

(** *** The three loops together *)

Section FieldsOf.
Variables (C : class) (data : value) (fields : properties).
Hypothesis loops : fields_of C data = Ok fields.

Lemma fields_of_inv :
  ∃ o1 o2,
    foldM (assigned C data) (fst <$> own_props data) [] = Ok o1 ∧
    foldM (defaulted C) (fst <$> PROPERTIES C) o1 = Ok o2 ∧
    foldM (derived C data) (fst <$> DERIVED_PROPERTIES C) o2 = Ok fields.
Proof.
  unfold fields_of in loops.
  destruct (foldM (assigned C data) _ []) as [o1|]; simpl in loops; [|done].
  destruct (foldM (defaulted C) _ o1) as [o2|] eqn:H2; simpl in loops; [|done].
  by exists o1, o2.
Qed.

Lemma NoDup_fields_of : NoDup (fst <$> fields).
Proof.
  destruct fields_of_inv as (o1 & o2 & H1 & H2 & H3).
  eapply derived_NoDup; [exact H3|]. eapply defaulted_NoDup; [exact H2|].
  eapply assigned_NoDup; [exact H1|]. constructor.
Qed.

(** Only declared fields are written. *)
Lemma fields_of_undeclared k : assoc k (PROPERTIES C) = None → assoc k fields = None.
Proof.
  intros Hk. destruct fields_of_inv as (o1 & o2 & H1 & H2 & H3).
  rewrite (derived_other C data k _ _ _ H3) by (by right; right).
  destruct (decide (k ∈ fst <$> PROPERTIES C)) as [Hin|Hout].
  { apply assoc_in_keys in Hin as [? ?]. congruence. }
  rewrite (defaulted_other C k _ _ _ H2 Hout).
  by rewrite (assigned_undeclared C data k _ _ _ H1 Hk).
Qed.

(** A declared field that an instance inherits no member for is there
    after the three loops. *)
Lemma fields_of_declared k typeFn :
  assoc k (PROPERTIES C) = Some typeFn → inherited_member k = false →
  is_Some (assoc k fields).
Proof.
  intros Hk Hown. destruct fields_of_inv as (o1 & o2 & H1 & H2 & H3).
  eapply derived_keeps; [exact H3|].
  pose proof (defaulted_at C k _ _ _ H2 (assoc_Some_keys _ _ _ Hk)) as Hat.
  unfold undefined_in in Hat. rewrite Hown in Hat.
  destruct (assoc k o1) as [v|] eqn:Ho1.
  - destruct (is_undefined v).
    + destruct Hat as (? & d & _ & _ & ->). by eexists.
    + rewrite Hat. by eexists.
  - simpl in Hat. destruct Hat as (? & d & _ & _ & ->). by eexists.
Qed.

(** A declared field that no raw key reaches and that is not derived holds
    its transformer's value at no argument. *)
Lemma fields_of_missing k typeFn :
  assoc k (PROPERTIES C) = Some typeFn → inherited_member k = false →
  (∀ key, key ∈ fst <$> own_props data →
     has_entry (DERIVED_PROPERTIES C) key = true ∨ canonical C key ≠ k) →
  assoc k (DERIVED_PROPERTIES C) = None →
  ∃ d, typeFn VUndefined = Ok d ∧ assoc k fields = Some d.
Proof.
  intros Hk Hown Hmissing Hplain. destruct fields_of_inv as (o1 & o2 & H1 & H2 & H3).
  rewrite (derived_other C data k _ _ _ H3) by (by right; left).
  pose proof (defaulted_at C k _ _ _ H2 (assoc_Some_keys _ _ _ Hk)) as Hat.
  unfold undefined_in in Hat.
  rewrite (assigned_other C data k _ _ _ H1 Hmissing) in Hat. simpl in Hat.
  rewrite Hown in Hat. destruct Hat as (typeFn' & d & Hk' & Hd & ->).
  exists d. split; [congruence|done].
Qed.

(** A derived, declared field holds the transformer's value at the
    derivation of the raw input. *)
Lemma fields_of_derived k derviceFn typeFn :
  assoc k (DERIVED_PROPERTIES C) = Some derviceFn →
  assoc k (PROPERTIES C) = Some typeFn →
  ∃ raw x, derviceFn data = Ok raw ∧ typeFn raw = Ok x ∧ assoc k fields = Some x.
Proof.
  intros Hd Hk. destruct fields_of_inv as (o1 & o2 & H1 & H2 & H3).
  eapply derived_at; [exact H3| |done|done]. by eapply assoc_Some_keys.
Qed.

(** Every declared field came out of its transformer. *)
Lemma fields_of_image k typeFn x :
  assoc k (PROPERTIES C) = Some typeFn → assoc k fields = Some x →
  ∃ y, typeFn y = Ok x.
Proof.
  intros Hk Hx. destruct fields_of_inv as (o1 & o2 & H1 & H2 & H3).
  destruct (decide (k ∈ fst <$> DERIVED_PROPERTIES C)) as [Hin|Hout].
  - apply assoc_in_keys in Hin as [derviceFn Hd].
    destruct (derived_at C data k derviceFn typeFn _ _ _ H3) as (raw & x' & _ & Hx' & Hf);
      [by eapply assoc_Some_keys|done|done|].
    exists raw. congruence.
  - rewrite (derived_other C data k _ _ _ H3) in Hx by (by left).
    destruct (defaulted_image C k typeFn _ _ _ H2 Hk) as [Hsame|(y & x' & Hy & Hx')].
    + rewrite Hsame in Hx.
      destruct (assigned_image C data k typeFn _ _ _ H1 Hk) as [Hnone|(y & x' & Hy & Hx')].
      * rewrite Hnone in Hx. done.
      * exists y. congruence.
    + exists y. congruence.
Qed.
End FieldsOf.

(** *** Proper classes *)

Section Proper.
Variable C : class.
Hypothesis wf : proper C = true.

Lemma proper_methods k :
  is_Some (assoc k (PROPERTIES C)) → inherited k = false → inherited_member k = false.
Proof.
  intros [typeFn Hk] Hobj. unfold inherited_member. rewrite Hobj, orb_false_r.
  unfold proper in wf. apply andb_true_iff in wf as [[Hm _]%andb_true_iff _].
  rewrite forallb_forall in Hm.
  destruct (existsb (String.eqb k) Model_prototype) eqn:Hex; [|done].
  apply existsb_exists in Hex as (m & Hin & ->%String.eqb_eq).
  destruct Hin as [<-|Hin]; [done|].
  specialize (Hm _ Hin). by rewrite Hk in Hm.
Qed.

Lemma proper_alias key : inherited key = false → inherited (canonical C key) = false.
Proof.
  intros Hkey. unfold canonical.
  destruct (assoc key (API_ALIASES C)) as [alias|] eqn:Halias; [|done].
  destruct (String.eqb alias ""); [done|].
  unfold proper in wf. apply andb_true_iff in wf as [[_ Ha]%andb_true_iff _].
  rewrite forallb_forall in Ha.
  assert (In (key, alias) (API_ALIASES C)) as Hin.
  { clear -Halias. induction (API_ALIASES C) as [|[k' a'] l IH]; simpl in *; [done|].
    destruct (String.eqb_spec key k') as [->|?]; [left; congruence|right; by apply IH]. }
  apply Ha in Hin. by apply negb_true_iff in Hin.
Qed.

Lemma proper_derived k : is_Some (assoc k (DERIVED_PROPERTIES C)) → inherited k = false.
Proof.
  intros [derviceFn Hk]. unfold proper in wf. apply andb_true_iff in wf as [_ Hd].
  rewrite forallb_forall in Hd.
  assert (In (k, derviceFn) (DERIVED_PROPERTIES C)) as Hin.
  { clear -Hk. induction (DERIVED_PROPERTIES C) as [|[k' a'] l IH]; simpl in *; [done|].
    destruct (String.eqb_spec k k') as [->|?]; [left; congruence|right; by apply IH]. }
  apply Hd in Hin. by apply negb_true_iff in Hin.
Qed.

(** In a proper class a raw key is skipped when it is derived or an
    inherited name, and else is looked up under its canonical name. *)
Lemma has_entry_false key :
  has_entry (DERIVED_PROPERTIES C) key = false ↔
  assoc key (DERIVED_PROPERTIES C) = None ∧ inherited key = false.
Proof.
  unfold has_entry. destruct (assoc key (DERIVED_PROPERTIES C)); [|tauto].
  split; [done|by intros [? _]].
Qed.

(** The instance of a proper class has no own property under a name it
    inherits a member for. *)
Lemma fields_of_own data fields k :
  fields_of C data = Ok fields → is_Some (assoc k fields) → inherited_member k = false.
Proof.
  intros Hloops Hk. destruct (fields_of_inv C data fields Hloops) as (o1 & o2 & H1 & H2 & H3).
  revert Hk. apply (foldM_invariant _
    (λ o, is_Some (assoc k o) → inherited_member k = false) _ _ _ H3).
  { intros o p o' _ Ho
      [[-> _]|(derviceFn & typeFn & raw & x & Hd & Ht & _ & _ & ->)]%derived_inv; [done|].
    rewrite assoc_set_prop. destruct (String.eqb_spec k p) as [->|?]; [|done].
    intros _. apply proper_methods; [by eexists|]. apply proper_derived. by eexists. }
  apply (foldM_invariant _
    (λ o, is_Some (assoc k o) → inherited_member k = false) _ _ _ H2).
  { intros o p o' _ Ho [[_ ->]|(typeFn & d & Hundef & _ & _ & ->)]%defaulted_inv; [done|].
    rewrite assoc_set_prop. destruct (String.eqb_spec k p) as [->|?]; [|done].
    intros _. unfold undefined_in in Hundef.
    destruct (assoc p o) eqn:Hp; [apply Ho; by eexists|]. by apply negb_true_iff. }
  apply (foldM_invariant _
    (λ o, is_Some (assoc k o) → inherited_member k = false) _ _ _ H1).
  { intros o key o' _ Ho [->|(typeFn & x & Hentry & Ht & _ & ->)]%assigned_inv; [done|].
    rewrite assoc_set_prop. destruct (String.eqb_spec k (canonical C key)) as [->|?]; [|done].
    intros _. apply proper_methods; [by eexists|].
    apply proper_alias. by apply has_entry_false in Hentry as [_ ?]. }
  by intros [? [=]].
Qed.

(** The own properties of its instance, the identity fields apart: the
    declared fields, but for those named as an inherited member. *)
Lemma fields_of_keys data fields k :
  fields_of C data = Ok fields →
  k ∈ fst <$> fields ↔ is_Some (assoc k (PROPERTIES C)) ∧ inherited_member k = false.
Proof.
  intros Hloops. rewrite in_keys_iff. split.
  - intros Hk. split; [|by eapply fields_of_own].
    destruct (assoc k (PROPERTIES C)) eqn:Hdecl; [by eexists|].
    rewrite (fields_of_undeclared C data fields Hloops k Hdecl) in Hk. by destruct Hk.
  - intros [[typeFn Hk] Hown]. by eapply fields_of_declared.
Qed.
End Proper.

(** *** When the loops return *)

(** The three loops return when every call they may make does. *)
Lemma fields_of_returns C data :
  returns_on C data → ∃ fields, fields_of C data = Ok fields.
Proof.
  intros (Hassigned & Hdefaults & Hderivations). unfold fields_of.
  destruct (foldM_Ok (assigned C data) (fst <$> own_props data) []) as [o1 ->].
  { intros o key Hkey. unfold assigned.
    destruct (has_entry _ key) eqn:Hentry; [by eexists|].
    destruct (assoc _ (PROPERTIES C)) as [typeFn|] eqn:Ht; [|by eexists].
    destruct (Hassigned key typeFn Hkey Hentry Ht) as [x ->]. by eexists. }
  simpl. destruct (foldM_Ok (defaulted C) (fst <$> PROPERTIES C) o1) as [o2 ->].
  { intros o p Hp. unfold defaulted. destruct (undefined_in o p); [|by eexists].
    apply assoc_in_keys in Hp as [typeFn Ht]. rewrite Ht.
    destruct (Hdefaults _ typeFn Ht) as [x ->]. by eexists. }
  simpl. apply foldM_Ok.
  intros o p Hp. unfold derived.
  destruct (assoc p (DERIVED_PROPERTIES C)) as [derviceFn|] eqn:Hd; [|by eexists].
  destruct (assoc p (PROPERTIES C)) as [typeFn|] eqn:Ht; [|by eexists].
  destruct (Hderivations p derviceFn typeFn Hd Ht) as [x Hx].
  destruct (derviceFn data) as [raw|]; simpl in Hx |- *; [|done].
  rewrite Hx. by eexists.
Qed.

(** The second loop returns when each default it needs does. *)
Lemma defaulted_returns C propNames o :
  (∀ p, p ∈ propNames → undefined_in o p = true →
     ∃ typeFn d, assoc p (PROPERTIES C) = Some typeFn ∧ typeFn VUndefined = Ok d) →
  ∃ o', foldM (defaulted C) propNames o = Ok o'.
Proof.
  revert o. induction propNames as [|p propNames IH]; intros o Hdefaults; simpl; [by eexists|].
  destruct (undefined_in o p) eqn:Hundef.
  - destruct (Hdefaults p) as (typeFn & d & Hp & Hd); [left|done|].
    assert (defaulted C o p = Ok (set_prop p d o)) as ->.
    { unfold defaulted. by rewrite Hundef, Hp, Hd. }
    simpl. apply IH. intros p' Hp' Hundef'.
    destruct (decide (p' = p)) as [->|Hne]; [by exists typeFn, d|].
    apply Hdefaults; [by right|]. unfold undefined_in in Hundef' |- *.
    by rewrite assoc_set_prop_ne in Hundef'.
  - assert (defaulted C o p = Ok o) as ->.
    { unfold defaulted. by rewrite Hundef. }
    simpl. apply IH. intros p' Hp'. apply Hdefaults. by right.
Qed.

(** With no derived field and no raw key renamed, a declared field that
    the raw input has, under a name it does not inherit, holds the coerced
    raw value, or the default when that value is [undefined]. *)
Lemma fields_of_plain_at C data fields k typeFn :
  fields_of C data = Ok fields →
  DERIVED_PROPERTIES C = [] →
  (∀ key, key ∈ fst <$> own_props data →
     has_entry (DERIVED_PROPERTIES C) key = true ∨ canonical C key = key) →
  inherited k = false →
  assoc k (PROPERTIES C) = Some typeFn →
  k ∈ fst <$> own_props data →
  ∃ x, typeFn (get_prop data k) = Ok x ∧
       if is_undefined x
       then ∃ d, typeFn VUndefined = Ok d ∧ assoc k fields = Some d
       else assoc k fields = Some x.
Proof.
  intros Hloops Hd Hplain Hown Hk Hin.
  destruct (fields_of_inv C data fields Hloops) as (o1 & o2 & H1 & H2 & H3).
  assert (has_entry (DERIVED_PROPERTIES C) k = false) as Hentry.
  { unfold has_entry. by rewrite Hd. }
  destruct (assigned_plain C data k typeFn _ _ _ H1 Hplain Hentry Hk Hin) as (x & Hx & Ho1).
  exists x. split; [done|].
  rewrite (derived_other C data k _ _ _ H3) by (right; left; by rewrite Hd).
  pose proof (defaulted_at C k _ _ _ H2 (assoc_Some_keys _ _ _ Hk)) as Hat.
  unfold undefined_in in Hat. rewrite Ho1 in Hat.
  destruct (is_undefined x); [|congruence].
  destruct Hat as (typeFn' & d & Hk' & Hd' & ->). exists d. split; [congruence|done].
Qed.

End Fields.

(** ** Serialization: [toJSON], spreads and the input of [set] *)

Module Serialization.
Import JS Machine Model Pure Examples Facts Fields.


Lemma NoDup_json_of C o : NoDup (fst <$> json_of C o).
Proof.
  unfold json_of. do 2 apply NoDup_set_prop.
  generalize (fst <$> o) as ks.
  assert (NoDup (fst <$> @nil (string * value))) as Hnil by constructor.
  revert Hnil. generalize (@nil (string * value)) as acc.
  intros acc Hacc ks. revert acc Hacc.
  induction ks as [|key ks IH]; intros acc Hacc; [done|].
  simpl. apply IH. destruct (assoc key (PROPERTIES C)); [|done].
  by apply NoDup_set_prop.
Qed.

(** *** Copying property lists *)

(** Copying a property list without repeated keys, entry by entry: each key
    ends up with its value in the list, else with what it had before. *)
Lemma copy_at k l acc :
  NoDup (fst <$> l) →
  assoc k (fold_left (λ o kv, set_prop kv.1 kv.2 o) l acc)
  = match assoc k l with Some v => Some v | None => assoc k acc end.
Proof.
  revert acc. induction l as [|[k0 v0] l IH]; intros acc Hl; [done|].
  csimpl in Hl. apply NoDup_cons in Hl as [Hk0 Hl]. simpl. rewrite IH by done.
  destruct (String.eqb_spec k k0) as [->|Hne].
  - apply assoc_None_iff in Hk0. by rewrite Hk0, assoc_set_prop_eq.
  - by rewrite assoc_set_prop_ne.
Qed.

Lemma set_prop_fresh k v o : k ∉ fst <$> o → set_prop k v o = o ++ [(k, v)].
Proof.
  induction o as [|[k0 v0] o IH]; csimpl; [done|].
  rewrite not_elem_of_cons. intros [Hne Hout].
  rewrite (proj2 (String.eqb_neq k k0)) by done. by rewrite IH.
Qed.

Lemma copy_onto l acc :
  NoDup (fst <$> acc ++ l) →
  fold_left (λ o kv, set_prop kv.1 kv.2 o) l acc = acc ++ l.
Proof.
  revert acc. induction l as [|[k v] l IH]; intros acc Hnd; simpl.
  - by rewrite app_nil_r.
  - rewrite set_prop_fresh.
    + rewrite IH; rewrite <- app_assoc; done.
    + rewrite fmap_app in Hnd. apply NoDup_app in Hnd as (_ & Hdisj & _).
      intros Hin. apply (Hdisj k Hin). csimpl. left.
Qed.

(** Spreading a list without repeated keys into an empty object copies it. *)
Lemma copy_id l :
  NoDup (fst <$> l) → fold_left (λ o kv, set_prop kv.1 kv.2 o) l [] = l.
Proof. intros Hl. by rewrite copy_onto. Qed.

Lemma copy_other k l acc :
  k ∉ fst <$> l →
  assoc k (fold_left (λ o kv, set_prop kv.1 kv.2 o) l acc) = assoc k acc.
Proof.
  revert acc. induction l as [|[k0 v0] l IH]; intros acc; csimpl; [done|].
  rewrite not_elem_of_cons. intros [Hne Hout].
  rewrite IH by done. by apply assoc_set_prop_ne.
Qed.

Lemma copy_keys k l acc :
  k ∈ fst <$> fold_left (λ o kv, set_prop kv.1 kv.2 o) l acc →
  k ∈ fst <$> l ∨ k ∈ fst <$> acc.
Proof.
  destruct (decide (k ∈ fst <$> l)) as [|Hout]; [by left|]. right.
  apply in_keys_iff. rewrite <- (copy_other k l acc) by done. by apply in_keys_iff.
Qed.

(** *** [toJSON], read at one key *)

Section ToJSON.
Variables (C : class) (o : properties) (k : string).

Lemma json_loop_at ks acc :
  assoc k (fold_left (λ obj key,
             match assoc key (PROPERTIES C) with
             | Some _ => set_prop key (default VUndefined (assoc key o)) obj
             | None => obj
             end) ks acc)
  = match assoc k (PROPERTIES C) with
    | Some _ => if decide (k ∈ ks) then Some (default VUndefined (assoc k o)) else assoc k acc
    | None => assoc k acc
    end.
Proof.
  revert acc. induction ks as [|key ks IH]; intros acc.
  - simpl. by destruct (assoc k (PROPERTIES C)).
  - simpl. rewrite IH. destruct (decide (k = key)) as [<-|Hne].
    + destruct (assoc k (PROPERTIES C)); [|done].
      rewrite (decide_True (P := k ∈ k :: ks)) by left.
      rewrite assoc_set_prop_eq. by destruct (decide _).
    + rewrite (decide_elem_of_cons_ne k key ks) by done.
      destruct (assoc key (PROPERTIES C)); [|done].
      by rewrite assoc_set_prop_ne.
Qed.

(** [toJSON] has [type], [uuid] and the declared fields the instance has. *)
Lemma json_of_at :
  assoc k (json_of C o)
  = if String.eqb k "type" then Some (default VUndefined (assoc "type" o))
    else if String.eqb k "uuid" then Some (default VUndefined (assoc "uuid" o))
    else match assoc k (PROPERTIES C) with
         | Some _ => if decide (k ∈ fst <$> o) then Some (default VUndefined (assoc k o)) else None
         | None => None
         end.
Proof.
  unfold json_of. rewrite !assoc_set_prop.
  destruct (String.eqb k "type"); [done|].
  destruct (String.eqb k "uuid"); [done|].
  rewrite json_loop_at. by destruct (assoc k (PROPERTIES C)).
Qed.

End ToJSON.

(** *** The serialization of a constructed instance *)

Section Serialized.
Variables (C : class) (raw : value) (fields : properties) (uuid : value).
Hypothesis loops : fields_of C raw = Ok fields.
Hypothesis wf : proper C = true.
Hypothesis idfree : identity_free C.
Let json : properties := json_of C (instance_props C fields uuid).

(** A declared field is no identity field. *)
Lemma declared_not_identity k typeFn :
  assoc k (PROPERTIES C) = Some typeFn → k ≠ "uuid" ∧ k ≠ "paginationId" ∧ k ≠ "type".
Proof.
  destruct idfree as (Hu & Hp & Ht). intros Hk. repeat split; intros ->; congruence.
Qed.

Lemma json_uuid : assoc "uuid" json = Some uuid.
Proof. unfold json. by rewrite json_of_at, instance_uuid. Qed.

Lemma json_type : assoc "type" json = Some (type C).
Proof. unfold json. by rewrite json_of_at, instance_type. Qed.

(** The serialization has, besides [uuid] and [type], the fields of the
    instance, each with its value. *)
Lemma json_field k :
  k ≠ "uuid" → k ≠ "type" → assoc k json = assoc k fields.
Proof.
  intros Hu Ht. unfold json. rewrite json_of_at.
  rewrite (proj2 (String.eqb_neq k "type")), (proj2 (String.eqb_neq k "uuid")) by done.
  destruct (assoc k (PROPERTIES C)) as [typeFn|] eqn:Hk.
  - destruct (declared_not_identity k typeFn Hk) as (_ & Hp & _).
    rewrite field_instance by done.
    destruct (decide _) as [Hin|Hout].
    + apply instance_keys in Hin as [Hin|[?|[?|?]]]; try done.
      apply assoc_in_keys in Hin as [x ->]. done.
    + destruct (assoc k fields) eqn:Hf; [|done].
      exfalso. apply Hout, instance_keys. left. by eapply assoc_Some_keys.
  - by rewrite (fields_of_undeclared C raw fields loops k Hk).
Qed.

(** Its keys are no inherited names, so that none is skipped on the way
    back. *)
Lemma json_key_own key : key ∈ fst <$> json → inherited key = false.
Proof.
  intros [v Hv]%assoc_in_keys.
  destruct (decide (key = "uuid")) as [->|?]; [done|].
  destruct (decide (key = "type")) as [->|?]; [done|].
  rewrite json_field in Hv by done.
  apply not_member_not_inherited, (fields_of_own C wf raw fields); [done|by eexists].
Qed.
End Serialized.

(** *** The raw input of [set] and [stub] *)

Section Merged.
Context `{Host}.
Variables (C : class) (o : properties) (keyOrObject value patch next : value).
Hypothesis diff : _diff keyOrObject value = Ok patch.
Hypothesis merge : merged C o keyOrObject value = Ok next.

Lemma merged_props :
  own_props next
  = fold_left (λ o kv, set_prop kv.1 kv.2 o) (own_props patch) (json_of C o).
Proof.
  unfold merged in merge. rewrite diff in merge. injection merge as <-.
  unfold spread. cbn [own_props]. rewrite fold_left_app.
  by rewrite (copy_id (json_of C o)) by apply NoDup_json_of.
Qed.

(** Outside the patch the raw input reads as [toJSON] gave it. *)
Lemma merged_outside k :
  k ∉ fst <$> own_props patch → assoc k (own_props next) = assoc k (json_of C o).
Proof. intros Hk. rewrite merged_props. by apply copy_other. Qed.

Lemma merged_keys k :
  k ∈ fst <$> own_props next → k ∈ fst <$> own_props patch ∨ k ∈ fst <$> json_of C o.
Proof. rewrite merged_props. apply copy_keys. Qed.

Lemma merged_has_json k : k ∈ fst <$> json_of C o → k ∈ fst <$> own_props next.
Proof.
  intros Hk. destruct (decide (k ∈ fst <$> own_props patch)) as [Hin|Hout].
  - rewrite merged_props.
    clear -Hin. revert Hin. generalize (json_of C o) as acc.
    induction (own_props patch) as [|[k0 v0] l IH]; intros acc; csimpl.
    + by intros ?%elem_of_nil.
    + intros Hin. destruct (decide (k ∈ fst <$> l)) as [Hl|Hl]; [by apply IH|].
      apply elem_of_cons in Hin as [->|?]; [|done].
      apply in_keys_iff. rewrite copy_other by done.
      rewrite assoc_set_prop_eq. by eexists.
  - apply in_keys_iff. rewrite merged_outside by done. by apply in_keys_iff.
Qed.
End Merged.

(** Patching one field named by a string: the patch wins at that field,
    every other key reads as [toJSON] gave it. *)
Lemma merged_at `{Host} C o key value :
  ∃ next,
    merged C o (VStr key) value = Ok next ∧
    ∀ k, assoc k (own_props next)
         = if String.eqb k key then Some value else assoc k (json_of C o).
Proof.
  eexists. split; [done|]. intros k. unfold spread; simpl.
  rewrite fold_left_app; simpl. rewrite assoc_set_prop.
  destruct (String.eqb k key); [done|].
  rewrite copy_at by apply NoDup_json_of.
  by destruct (assoc k (json_of C o)).
Qed.

(** *** The registry's transformers are idempotent *)

Section Registry.
Context `{Host}.

Lemma string_idempotent v x : Types.string v = Ok x → Types.string x = Ok x.
Proof.
  unfold Types.string. destruct (ToBoolean v).
  - destruct (ToString v) as [s|]; simpl; [|done]. intros [= <-]. simpl.
    by destruct (String.eqb_spec s "") as [->|?].
  - by intros [= <-].
Qed.

Lemma number_idempotent v x : Types.number v = Ok x → Types.number x = Ok x.
Proof.
  unfold Types.number. destruct (is_undefined v).
  - by intros [= <-].
  - destruct (ToNumber v) as [n|]; simpl; [|done]. by intros [= <-].
Qed.

Lemma array_idempotent v x : Types.array v = Ok x → Types.array x = Ok x.
Proof. unfold Types.array. destruct v; simpl; by intros [= <-]. Qed.

Lemma bool_idempotent v x : Types.bool v = Ok x → Types.bool x = Ok x.
Proof. unfold Types.bool. by intros [= <-]. Qed.

Lemma likes_idempotent v x : Types.likes v = Ok x → Types.likes x = Ok x.
Proof. destruct v as [| |[]| | | | |]; simpl; by intros [= <-]. Qed.

Lemma nop_idempotent v x : Types.nop v = Ok x → Types.nop x = Ok x.
Proof. unfold Types.nop. by intros [= <-]. Qed.

Lemma arrayOf_array (t : transformer) elems :
  Types.arrayOf t (VArr elems) = elems' ← traverse t elems; Ok (VArr elems').
Proof. done. Qed.

Lemma arrayOf_other (t : transformer) v : isArray v = false → Types.arrayOf t v = Ok (VArr []).
Proof. by destruct v. Qed.

Lemma arrayOf_idempotent (t : transformer) v x :
  (∀ y z, t y = Ok z → t z = Ok z) →
  Types.arrayOf t v = Ok x → Types.arrayOf t x = Ok x.
Proof.
  intros Ht. destruct (isArray v) eqn:Harr.
  - destruct v; try done. rewrite arrayOf_array.
    destruct (traverse t elems) as [elems'|] eqn:Hmap; simpl; [|done].
    intros [= <-]. rewrite arrayOf_array.
    apply traverse_inv in Hmap.
    rewrite (traverse_Forall2 t elems' elems'); [done|].
    clear -Ht Hmap. induction Hmap as [|y z l l' Hyz _ IH]; constructor; [|done].
    by eapply Ht.
  - rewrite arrayOf_other by done. by intros [= <-].
Qed.

(** [string] and [number] return on what [String] converts, and throw on
    the rest. *)
Lemma string_returns val :
  if stringifiable val then ∃ s, Types.string val = Ok (VStr s)
  else ∃ e, Types.string val = Throw e.
Proof.
  unfold Types.string. destruct (stringifiable val) eqn:Hs.
  - destruct (ToBoolean val); [|by eexists].
    destruct (proj1 (ToString_stringifiable val) Hs) as [s ->]. by eexists.
  - destruct (unstringifiable_truthy val Hs) as [-> _].
    destruct (proj2 (ToString_stringifiable val) Hs) as [e ->]. by eexists.
Qed.

Lemma number_returns val :
  if stringifiable val then ∃ n, Types.number val = Ok (VNum n)
  else ∃ e, Types.number val = Throw e.
Proof.
  unfold Types.number. destruct (stringifiable val) eqn:Hs.
  - destruct (is_undefined val); [by eexists|].
    destruct (proj1 (ToNumber_stringifiable val) Hs) as [n ->]. by eexists.
  - destruct (unstringifiable_truthy val Hs) as [_ ->].
    destruct (proj2 (ToNumber_stringifiable val) Hs) as [e ->]. by eexists.
Qed.
End Registry.

Lemma AB_idempotent `{Host} kind aliases : idempotent (AB kind aliases).
Proof.
  intros k typeFn v x. unfold AB; simpl.
  destruct (String.eqb k "a"); [intros [= <-]; apply string_idempotent|].
  destruct (String.eqb k "b"); [intros [= <-]; apply number_idempotent|done].
Qed.

(** The class with the fields [{a: string, b: number}] calls nothing that
    throws on values that [String] converts. *)
Lemma AB_returns_on `{Host} kind aliases data :
  (∀ v, v ∈ snd <$> own_props data → stringifiable v = true) →
  returns_on (AB kind aliases) data.
Proof.
  intros Hvalues. split; [|split].
  - intros key typeFn Hkey _ Hdeclared.
    assert (stringifiable (get_prop data key) = true) as Hs.
    { unfold get_prop. apply assoc_in_keys in Hkey as [v Hv]. rewrite Hv. simpl.
      by eapply Hvalues, assoc_Some_values. }
    pose proof (string_returns (get_prop data key)) as Hstring.
    pose proof (number_returns (get_prop data key)) as Hnumber.
    rewrite Hs in Hstring, Hnumber. revert Hdeclared. unfold AB; simpl.
    destruct (String.eqb _ "a"); [intros [= <-]; destruct Hstring; by eexists|].
    destruct (String.eqb _ "b"); [intros [= <-]; destruct Hnumber; by eexists|done].
  - intros k typeFn. unfold AB; simpl.
    destruct (String.eqb k "a"); [intros [= <-]; by eexists|].
    destruct (String.eqb k "b"); [intros [= <-]; by eexists|done].
  - intros k derviceFn typeFn. by unfold AB.
Qed.

End Serialization.

(** ** An instance constructed again from its serialization *)

Module Reconstruction.
Import JS Machine Model Pure Examples Facts Fields Serialization.

Lemma instance_props_ext C fields fields' uuid :
  (∀ k, assoc k fields' = assoc k fields) →
  ∀ k, assoc k (instance_props C fields' uuid) = assoc k (instance_props C fields uuid).
Proof. intros Hsame k. unfold instance_props. by rewrite !assoc_set_prop, Hsame. Qed.

Section RoundTrip.
Variables (C : class) (raw : value) (fields : properties) (uuid : value).
Hypothesis no_derived : DERIVED_PROPERTIES C = [].
Hypothesis stable : alias_stable C.
Hypothesis idem : idempotent C.
Hypothesis wf : proper C = true.
Hypothesis idfree : identity_free C.
Hypothesis loops : fields_of C raw = Ok fields.
Let json : value := VObj (json_of C (instance_props C fields uuid)).

(** No key of the serialization is skipped or renamed on the way back. *)
Lemma json_keys_plain key :
  key ∈ fst <$> own_props json →
  has_entry (DERIVED_PROPERTIES C) key = false ∧ canonical C key = key.
Proof.
  intros Hkey. split.
  - unfold has_entry. rewrite no_derived. simpl.
    by apply (json_key_own C raw fields uuid loops wf idfree).
  - apply stable.
    apply assoc_in_keys in Hkey as [v Hv]. unfold json in Hv; simpl in Hv.
    rewrite json_of_at in Hv.
    destruct (String.eqb_spec key "type"); [by right; right|].
    destruct (String.eqb_spec key "uuid"); [by right; left|].
    left. by destruct (assoc key (PROPERTIES C)).
Qed.

(** A declared field reads in the serialization as in the instance, and
    its value there is one its transformer returns unchanged. *)
Lemma json_declared k typeFn :
  assoc k (PROPERTIES C) = Some typeFn →
  assoc k (own_props json) = assoc k fields ∧
  ∀ x, assoc k fields = Some x → typeFn x = Ok x.
Proof.
  intros Hk. destruct (declared_not_identity C idfree k typeFn Hk) as (Hu & _ & Ht).
  split; [by apply (json_field C raw fields uuid loops idfree)|].
  intros x Hx. destruct (fields_of_image C raw fields loops k typeFn x Hk Hx) as [y Hy].
  by eapply idem.
Qed.

(** The first loop, on the serialization, restores the fields. *)
Lemma reassigned :
  ∃ o1,
    foldM (assigned C json) (fst <$> own_props json) [] = Ok o1 ∧
    ∀ k, assoc k o1 = assoc k fields.
Proof.
  destruct (foldM_Ok (assigned C json) (fst <$> own_props json) []) as [o1 H1].
  { intros o key Hkey. destruct (json_keys_plain key Hkey) as [Hentry Hcan].
    unfold assigned. rewrite Hentry, Hcan.
    destruct (assoc key (PROPERTIES C)) as [typeFn|] eqn:Hdecl; [|by eexists].
    destruct (json_declared key typeFn Hdecl) as [Hsame Hidem].
    apply assoc_in_keys in Hkey as [x Hx]. unfold get_prop. rewrite Hx. simpl.
    rewrite (Hidem x) by congruence. by eexists. }
  exists o1. split; [done|]. intros k.
  destruct (assoc k (PROPERTIES C)) as [typeFn|] eqn:Hdecl.
  - destruct (json_declared k typeFn Hdecl) as [Hsame Hidem].
    destruct (assoc k fields) as [x|] eqn:Hx.
    + assert (k ∈ fst <$> own_props json) as Hin by (by eapply assoc_Some_keys).
      destruct (assigned_plain C json k typeFn _ _ _ H1) as (x' & Hx' & ->); try done.
      * intros key Hkey. right. by apply json_keys_plain.
      * by apply json_keys_plain.
      * unfold get_prop in Hx'. rewrite Hsame in Hx'. simpl in Hx'.
        rewrite (Hidem x eq_refl) in Hx'. congruence.
    + rewrite (assigned_other C json k _ _ _ H1); [done|].
      intros key Hkey. right. destruct (json_keys_plain key Hkey) as [_ ->].
      intros ->. apply assoc_in_keys in Hkey as [? ?]. congruence.
  - rewrite (assigned_undeclared C json k _ _ _ H1 Hdecl).
    by rewrite (fields_of_undeclared C raw fields loops k Hdecl).
Qed.

(** A field that reads [undefined] after that holds [undefined], and its
    transformer returns [undefined] at no argument. *)
Lemma undefined_again o1 k typeFn :
  (∀ k, assoc k o1 = assoc k fields) →
  assoc k (PROPERTIES C) = Some typeFn →
  undefined_in o1 k = true →
  assoc k fields = Some VUndefined ∧ typeFn VUndefined = Ok VUndefined.
Proof.
  intros Hsame Hk. unfold undefined_in. rewrite Hsame.
  destruct (assoc k fields) as [x|] eqn:Hx.
  - intros ->%is_undefined_eq. split; [done|].
    destruct (json_declared k typeFn Hk) as [_ Hidem]. by apply Hidem.
  - intros Hown%negb_true_iff.
    destruct (fields_of_declared C raw fields loops k typeFn Hk Hown) as [x' ?]. congruence.
Qed.

(** So the three loops, on the serialization, return the fields of the
    instance. *)
Lemma fields_of_json :
  ∃ fields', fields_of C json = Ok fields' ∧ ∀ k, assoc k fields' = assoc k fields.
Proof.
  destruct reassigned as (o1 & H1 & Hsame1).
  destruct (defaulted_returns C (fst <$> PROPERTIES C) o1) as [o2 H2].
  { intros p Hp Hundef. apply assoc_in_keys in Hp as [typeFn Hp].
    destruct (undefined_again o1 p typeFn Hsame1 Hp Hundef) as [_ Hd].
    by exists typeFn, VUndefined. }
  exists o2. split.
  - unfold fields_of. rewrite H1. simpl. rewrite H2. simpl. by rewrite no_derived.
  - intros k. destruct (decide (k ∈ fst <$> PROPERTIES C)) as [Hin|Hout].
    + pose proof (defaulted_at C k _ _ _ H2 Hin) as Hat.
      apply assoc_in_keys in Hin as [typeFn Hk].
      destruct (undefined_in o1 k) eqn:Hundef; [|by rewrite Hat].
      destruct (undefined_again o1 k typeFn Hsame1 Hk Hundef) as [-> Hd].
      destruct Hat as (typeFn' & d & Hk' & Hd' & ->). congruence.
    + by rewrite (defaulted_other C k _ _ _ H2 Hout).
Qed.

Lemma json_identity : get_prop json "uuid" = uuid.
Proof.
  unfold get_prop, json. cbn [own_props].
  by rewrite (json_uuid C fields uuid).
Qed.
End RoundTrip.

End Reconstruction.

(** * The specification, statement by statement *)

Module Spec.
Import JS Machine Model Pure Examples Facts Fields Serialization Reconstruction.

(** C9. The [likes] transformer coerces the tri-state vote: [true] to 1,
    [false] to -1, [null] to 0; every other value, the integer 7 for one,
    passes through unchanged. *)
Theorem likes_tri_state :
  Types.likes (VBool true) = Ok (num 1) ∧
  Types.likes (VBool false) = Ok (num (-1)) ∧
  Types.likes VNull = Ok (num 0) ∧
  Types.likes (num 7) = Ok (num 7) ∧
  ∀ v, (∀ b, v ≠ VBool b) → v ≠ VNull → Types.likes v = Ok v.
Proof.
  repeat split.
  intros v Hbool Hnull. destruct v as [| |b| | | | |]; try reflexivity.
  - by destruct Hnull.
  - by destruct (Hbool b).
Qed.

Section RegistryFails.
#[local] Existing Instance no_host.

(** C6, as stated, fails, in two ways. Called with no argument, [likes]
    returns [undefined], which is no vote (no number at all), and so does
    [nop]. And [string] and [number] throw on a malformed input:
    [{toString: 1}] has nothing that [String] or [Number] could call. *)
Lemma registry_is_not_total :
  Types.likes VUndefined = Ok VUndefined ∧
  (¬ ∃ n, Types.likes VUndefined = Ok (VNum n)) ∧
  Types.nop VUndefined = Ok VUndefined ∧
  Types.string (VObj [("toString", num 1)])
  = Throw (TypeError "Cannot convert object to primitive value") ∧
  Types.number (VObj [("toString", num 1)])
  = Throw (TypeError "Cannot convert object to primitive value") ∧
  Types.arrayOf Types.string (VArr [VStr "a"; VObj [("toString", num 1)]])
  = Throw (TypeError "Cannot convert object to primitive value").
Proof.
  repeat split. intros [n Hn]. discriminate Hn.
Qed.
End RegistryFails.

(** C6, amended. Called with no argument, [string], [number], [array],
    [arrayOf(t)] and [bool] return the empty value of their type: the empty
    string, 0, the empty array (twice) and [false]; [likes] and [nop] return
    [undefined]. [array], [bool], [likes] and [nop] never throw, and the
    first two always return a value of their type. [string] and [number]
    return a value of their type on every input that [String] converts, and
    throw on the others: an object with an own property [toString], or an
    array with such an element. [arrayOf(t)] returns an array, of the same
    length, when [t] returns on every element, the empty array on what is no
    array, and throws when [t] throws on an element. *)
Theorem registry_defaults `{Host} :
  (Types.string VUndefined = Ok (VStr "") ∧
   Types.number VUndefined = Ok (num 0) ∧
   Types.array VUndefined = Ok (VArr []) ∧
   (∀ t, Types.arrayOf t VUndefined = Ok (VArr [])) ∧
   Types.bool VUndefined = Ok (VBool false) ∧
   Types.likes VUndefined = Ok VUndefined ∧
   Types.nop VUndefined = Ok VUndefined) ∧
  (∀ val, ∃ elems, Types.array val = Ok (VArr elems)) ∧
  (∀ val, ∃ b, Types.bool val = Ok (VBool b)) ∧
  (∀ val, ∃ x, Types.likes val = Ok x) ∧
  (∀ val, Types.nop val = Ok val) ∧
  (∀ val, if stringifiable val then ∃ s, Types.string val = Ok (VStr s)
          else ∃ e, Types.string val = Throw e) ∧
  (∀ val, if stringifiable val then ∃ n, Types.number val = Ok (VNum n)
          else ∃ e, Types.number val = Throw e) ∧
  (∀ (t : transformer) elems,
     (∀ x, x ∈ elems → ∃ y, t x = Ok y) →
     ∃ elems', Types.arrayOf t (VArr elems) = Ok (VArr elems') ∧
               length elems' = length elems) ∧
  (∀ (t : transformer) val, isArray val = false → Types.arrayOf t val = Ok (VArr [])) ∧
  (∀ (t : transformer) elems x e,
     x ∈ elems → t x = Throw e → ∃ e', Types.arrayOf t (VArr elems) = Throw e').
Proof.
  split; [by repeat split|].
  split; [intros val; unfold Types.array; destruct val; by eexists|].
  split; [intros val; by eexists|].
  split; [intros val; destruct val as [| |[]| | | | |]; by eexists|].
  split; [done|].
  split; [apply string_returns|].
  split; [apply number_returns|].
  split; [|split; [apply arrayOf_other|]].
  - intros t elems Ht. rewrite arrayOf_array.
    destruct (traverse_Ok t elems Ht) as [elems' Hmap]. rewrite Hmap. simpl.
    exists elems'. split; [done|].
    apply traverse_inv in Hmap. symmetry. by eapply Forall2_length.
  - intros t elems x e Hx Hthrow. rewrite arrayOf_array.
    destruct (traverse_Throw t elems x e Hx Hthrow) as [e' ->]. by eexists.
Qed.

(** C7. Default-fill: constructing from the empty raw input [{}] against
    fields [{a: string, b: number}] gives [a === ""], [b === 0] and a
    fallback uuid that is a non-empty string (with the warning printed). *)
Theorem default_fill `{Host} kind aliases st :
  ∃ this st',
    constructor (AB kind aliases) (VObj []) false st = (Ok this, st') ∧
    field st' this "a" = VStr "" ∧
    field st' this "b" = num 0 ∧
    (∃ s, field st' this "uuid" = VStr s ∧ s ≠ "") ∧
    console st' = "generating fake uuid" :: console st.
Proof.
  eexists _, _. split; [by apply constructor_Ok|].
  rewrite !field_constructed. repeat split.
  exists (decimal ((16 * (entropy st (draws st) mod 2 ^ 53) + 2 ^ 52) / 2 ^ 53)).
  split; [done|]. apply decimal_nonempty.
Qed.

(** C8. Alias resolution: with [aliasMap: {x: 'y'}] and the transformer
    [string] for [y], constructing from [{x: 5}] gives [y === "5"]. *)
Theorem alias_resolution `{Host} kind st :
  ∃ this st',
    constructor (Aliased kind) (VObj [("x", num 5)]) false st = (Ok this, st') ∧
    field st' this "y" = VStr "5".
Proof.
  eexists _, _. split; [by apply constructor_Ok|].
  by rewrite field_constructed.
Qed.

(** C10. In every constructed instance [paginationId] equals [uuid]: the
    uuid (the raw [uuid], else the raw [id], else the fallback) is always
    truthy, so [this.uuid || this.makeUUID(data)] stops at [this.uuid];
    the fallback is drawn at most once. *)
Theorem paginationId_is_uuid C data flag st this st' :
  constructor C data flag st = (Ok this, st') →
  ToBoolean (field st' this "uuid") = true ∧
  field st' this "paginationId" = field st' this "uuid" ∧
  field st' this "uuid" = uuid_of data st ∧
  (draws st' ≤ S (draws st))%nat.
Proof.
  intros Hrun. apply constructor_inv in Hrun as (fields & Hdata & Hloops & -> & ->).
  rewrite !field_constructed. cbn [props].
  rewrite instance_uuid, instance_paginationId. simpl.
  split; [apply uuid_of_truthy|]. do 2 (split; [done|]).
  unfold after_uuid. destruct (has_identity data); simpl; lia.
Qed.

Section ConstructionThrows.
#[local] Existing Instance no_host.

(** C2, as stated, fails, in two ways. A raw input that is [null] (or
    [undefined]) makes the constructor throw, at [Object.keys(data)]; and
    so does a malformed value that a transformer throws on: [string] on
    [{toString: 1}]. *)
Lemma construction_throws :
  (constructor Empty VNull false boot).1
  = Throw (TypeError "Cannot convert undefined or null to object") ∧
  (constructor Empty VUndefined false boot).1
  = Throw (TypeError "Cannot convert undefined or null to object") ∧
  (constructor (AB (VStr "t3") []) (VObj [("a", VObj [("toString", num 1)])]) false boot).1
  = Throw (TypeError "Cannot convert object to primitive value").
Proof. repeat split; reflexivity. Qed.
End ConstructionThrows.

(** C2, amended. The constructor throws nothing of its own on a raw input
    other than [null] and [undefined]: it returns a new instance whenever
    every call it makes of a transformer or a derivation returns (in a class
    that writes no property over an inherited member). The instance has
    every declared field, but for one named as a member it inherits, and
    such a field that no raw key reaches (and that is neither derived nor
    an identity field) holds its transformer's value at no argument. *)
Theorem construction_never_throws C data flag st :
  is_nullish data = false → proper C = true → returns_on C data →
  ∃ this st',
    constructor C data flag st = (Ok this, st') ∧
    store st !! this = None ∧
    (∀ k, k ∈ fst <$> PROPERTIES C → inherited_member k = false → k ∈ own_keys st' this) ∧
    (∀ k typeFn,
       assoc k (PROPERTIES C) = Some typeFn → inherited_member k = false →
       (∀ key, key ∈ fst <$> own_props data →
          has_entry (DERIVED_PROPERTIES C) key = true ∨ canonical C key ≠ k) →
       assoc k (DERIVED_PROPERTIES C) = None →
       k ≠ "uuid" → k ≠ "paginationId" → k ≠ "type" →
       typeFn VUndefined = Ok (field st' this k)).
Proof.
  intros Hdata Hwf Hreturns.
  destruct (fields_of_returns C data Hreturns) as [fields Hloops].
  eexists _, _. split; [by apply (constructor_Ok C data st Hdata flag fields)|].
  split; [by apply lookup_ge_None|]. split.
  - intros k Hk Hown. rewrite own_keys_constructed; cbn [props].
    apply instance_keys. left. apply (fields_of_keys C Hwf data fields k Hloops).
    split; [by apply assoc_in_keys|done].
  - intros k typeFn Hk Hown Hmissing Hplain ? ? ?.
    rewrite field_constructed; cbn [props]. rewrite field_instance by done.
    destruct (fields_of_missing C data fields Hloops k typeFn Hk Hown Hmissing Hplain)
      as (d & Hd & ->).
    done.
Qed.

(** C3. Derived-field precedence. With the transformer [number] for
    [total] and the derivation [total = raw.a + raw.b], constructing from
    [{a: 2, b: 3, total: 999}] gives [total === 5], not 999. In general a
    field with both a derivation and a transformer holds the transformer's
    value at the derivation of the raw input, whatever the raw input said
    of it (the identity fields apart, which the constructor assigns last). *)
Theorem derived_precedence `{Host} :
  (∀ kind st, ∃ this st',
     constructor (Totals kind)
       (VObj [("a", num 2); ("b", num 3); ("total", num 999)]) false st = (Ok this, st') ∧
     field st' this "total" = num 5) ∧
  (∀ C data flag st this st' k derviceFn typeFn,
     constructor C data flag st = (Ok this, st') →
     assoc k (DERIVED_PROPERTIES C) = Some derviceFn →
     assoc k (PROPERTIES C) = Some typeFn →
     k ≠ "uuid" → k ≠ "paginationId" → k ≠ "type" →
     derviceFn data ≫= typeFn = Ok (field st' this k)).
Proof.
  split.
  - intros kind st. eexists _, _. split; [by apply constructor_Ok|].
    by rewrite field_constructed.
  - intros C data flag st this st' k derviceFn typeFn Hrun Hd Hk ? ? ?.
    apply constructor_inv in Hrun as (fields & Hdata & Hloops & -> & ->).
    rewrite field_constructed; cbn [props]. rewrite field_instance by done.
    destruct (fields_of_derived C data fields Hloops k derviceFn typeFn Hd Hk)
      as (raw & x & -> & Hx & ->).
    done.
Qed.

Section SetThrows.
#[local] Existing Instance no_host.

End SetThrows.



Section RoundTripFails.
#[local] Existing Instance no_host.

(** C1, as stated, fails, in five ways. A derived field is derived again
    from the serialization, which no longer has what it was derived from
    ([saved], derived from [is_saved]); a field name that is also an alias
    is renamed on the way back ([name], an alias of [title]); a transformer
    that is not idempotent is applied a second time ([val => [val]]); a
    field named as an identity field holds what the constructor put there
    last, which its transformer then throws on ([uuid: string] holding the
    raw [id] [{toString: null}]); and a field that an alias writes under a
    name every object inherits is skipped on the way back, where its key is
    the inherited name itself ([toString], written from [label]). *)
Lemma round_trip_fails :
  (field (built Derived (VObj [("is_saved", VBool true)])) 0 "saved" = VBool true ∧
   (reconstruct Derived 0 (built Derived (VObj [("is_saved", VBool true)]))).1 = Ok 1 ∧
   field (rebuilt Derived (VObj [("is_saved", VBool true)])) 1 "saved" = VBool false) ∧
  (field (built Renamed (VObj [("name", VStr "A")])) 0 "title" = VStr "A" ∧
   (reconstruct Renamed 0 (built Renamed (VObj [("name", VStr "A")]))).1 = Ok 1 ∧
   field (rebuilt Renamed (VObj [("name", VStr "A")])) 1 "title" = VUndefined) ∧
  (field (built Wrapped (VObj [("tags", VStr "x")])) 0 "tags" = VArr [VStr "x"] ∧
   (reconstruct Wrapped 0 (built Wrapped (VObj [("tags", VStr "x")]))).1 = Ok 1 ∧
   field (rebuilt Wrapped (VObj [("tags", VStr "x")])) 1 "tags" = VArr [VArr [VStr "x"]]) ∧
  ((constructor Identified (VObj [("id", unprintable)]) false boot).1 = Ok 0 ∧
   field (built Identified (VObj [("id", unprintable)])) 0 "uuid" = unprintable ∧
   (reconstruct Identified 0 (built Identified (VObj [("id", unprintable)]))).1
   = Throw (TypeError "Cannot convert object to primitive value")) ∧
  (field (built Shadowing (VObj [("label", VStr "A")])) 0 "toString" = VStr "A" ∧
   (reconstruct Shadowing 0 (built Shadowing (VObj [("label", VStr "A")]))).1 = Ok 1 ∧
   own_keys (rebuilt Shadowing (VObj [("label", VStr "A")])) 1
   = ["uuid"; "paginationId"; "type"]).
Proof. repeat apply conj; reflexivity. Qed.
End RoundTripFails.

(** C1, amended. For a class with no derived field, whose alias map
    renames none of its field names nor [uuid] nor [type], whose
    transformers are idempotent (as those of the registry are), that
    declares none of [uuid], [paginationId] and [type] as a field and
    writes no property over an inherited member, constructing from
    [toJSON(instance)] gives a new instance with the same value in every
    field: the declared fields, [uuid], [paginationId] and [type]. *)
Theorem round_trip C raw st this st1 :
  DERIVED_PROPERTIES C = [] → alias_stable C → idempotent C →
  proper C = true → identity_free C →
  constructor C raw false st = (Ok this, st1) →
  ∃ this' st2,
    reconstruct C this st1 = (Ok this', st2) ∧
    this' ≠ this ∧
    ∀ k, field st2 this' k = field st1 this k.
Proof.
  intros Hd Hs Hi Hwf Hid Hnew.
  apply constructor_inv in Hnew as (fields & Hraw & Hloops & -> & ->).
  set (u := uuid_of raw st).
  set (o := {| props := instance_props C fields u; frozen := negb false |}).
  set (st1 := with_new (after_uuid raw st) o).
  set (json := VObj (json_of C (props o))).
  assert (reconstruct C (length (store st)) st1 = constructor C json false st1) as Hre.
  { unfold reconstruct. erewrite bind_Ok; [done|].
    apply toJSON_run. apply lookup_constructed. }
  destruct (fields_of_json C raw fields u Hd Hs Hi Hwf Hid Hloops) as (fields' & Hloops' & Hsame).
  assert (uuid_of json st1 = u) as Hu.
  { unfold uuid_of, json, o; cbn [props].
    rewrite json_identity. unfold u. by rewrite uuid_of_truthy. }
  eexists _, _. split; [rewrite Hre; by apply (constructor_Ok C json st1 eq_refl false fields')|].
  split; [unfold st1; rewrite length_constructed; lia|].
  intros k. rewrite field_constructed. cbn [props]. rewrite Hu.
  unfold st1. rewrite field_constructed. unfold o; cbn [props].
  by rewrite (instance_props_ext C fields fields').
Qed.

End Spec.

(** * Each conditional statement, applied to a concrete run *)

Module Witnesses.
Import JS Machine Model Pure Examples Facts Fields Serialization Reconstruction Spec.
#[local] Existing Instance no_host.

(** C9 at a string: [likes("up")] is ["up"]. *)
Lemma likes_tri_state_witness : Types.likes (VStr "up") = Ok (VStr "up").
Proof.
  destruct likes_tri_state as (_ & _ & _ & _ & pass). by apply pass.
Defined.

(** C6, amended, at [arrayOf(bool)] on [[null, "a"]]. *)
Lemma registry_defaults_witness :
  ∃ elems', Types.arrayOf Types.bool (VArr [VNull; VStr "a"]) = Ok (VArr elems') ∧
            length elems' = length [VNull; VStr "a"].
Proof.
  destruct registry_defaults as (_ & _ & _ & _ & _ & _ & _ & each & _).
  apply each. intros x _. by eexists.
Defined.

(** C10 at the instance constructed from [{}]. *)
Lemma paginationId_is_uuid_witness :
  ToBoolean (field (constructor Empty (VObj []) false boot).2 0 "uuid") = true ∧
  field (constructor Empty (VObj []) false boot).2 0 "paginationId"
  = field (constructor Empty (VObj []) false boot).2 0 "uuid" ∧
  field (constructor Empty (VObj []) false boot).2 0 "uuid" = uuid_of (VObj []) boot ∧
  (draws (constructor Empty (VObj []) false boot).2 ≤ S (draws boot))%nat.
Proof.
  apply (paginationId_is_uuid Empty (VObj []) false boot). reflexivity.
Defined.

(** C2, amended, at the raw input [{a: null}]. *)
Lemma construction_never_throws_witness :
  ∃ this st',
    constructor (AB (VStr "t3") []) (VObj [("a", VNull)]) false boot
    = (Ok this, st') ∧
    store boot !! this = None ∧
    (∀ k, k ∈ fst <$> PROPERTIES (AB (VStr "t3") []) → inherited_member k = false →
          k ∈ own_keys st' this) ∧
    (∀ k typeFn,
       assoc k (PROPERTIES (AB (VStr "t3") [])) = Some typeFn →
       inherited_member k = false →
       (∀ key, key ∈ fst <$> own_props (VObj [("a", VNull)]) →
          has_entry (DERIVED_PROPERTIES (AB (VStr "t3") [])) key = true ∨
          canonical (AB (VStr "t3") []) key ≠ k) →
       assoc k (DERIVED_PROPERTIES (AB (VStr "t3") [])) = None →
       k ≠ "uuid" → k ≠ "paginationId" → k ≠ "type" →
       typeFn VUndefined = Ok (field st' this k)).
Proof.
  apply (construction_never_throws (AB (VStr "t3") [])).
  - reflexivity.
  - reflexivity.
  - apply AB_returns_on. intros v Hv. simpl in Hv.
    apply list_elem_of_singleton in Hv. by rewrite Hv.
Defined.

(** C3 at [{a: 2, b: 3, total: 999}]. *)
Lemma derived_precedence_witness :
  add (get_prop (VObj [("a", num 2); ("b", num 3); ("total", num 999)]) "a")
      (get_prop (VObj [("a", num 2); ("b", num 3); ("total", num 999)]) "b")
    ≫= Types.number
  = Ok (field (constructor (Totals (VStr "t3"))
                 (VObj [("a", num 2); ("b", num 3); ("total", num 999)]) false boot).2
          0 "total").
Proof.
  apply (proj2 (derived_precedence)
           (Totals (VStr "t3"))
           (VObj [("a", num 2); ("b", num 3); ("total", num 999)]) false boot 0 _
           "total" (λ raw, add (get_prop raw "a") (get_prop raw "b")) Types.number);
    reflexivity || discriminate.
Defined.



(** C1, amended, at the instance constructed from [{a: null, id: 't3_a'}]. *)
Lemma round_trip_witness :
  ∃ this' st2,
    reconstruct (AB (VStr "t3") []) 0
      (built (AB (VStr "t3") []) (VObj [("a", VNull); ("id", VStr "t3_a")]))
    = (Ok this', st2) ∧
    this' ≠ 0 ∧
    ∀ k, field st2 this' k
         = field (built (AB (VStr "t3") []) (VObj [("a", VNull); ("id", VStr "t3_a")])) 0 k.
Proof.
  apply (round_trip (AB (VStr "t3") []) (VObj [("a", VNull); ("id", VStr "t3_a")]) boot).
  - reflexivity.
  - intros k _. reflexivity.
  - apply AB_idempotent.
  - reflexivity.
  - repeat split; reflexivity.
  - reflexivity.
Defined.

End Witnesses.

(** * More of the code: facts *)

Module MoreFacts.
Import JS Machine Model Pure Examples Rest Facts Fields Serialization Reconstruction.

(** *** The fallback identifier *)

Lemma fallback_bound (k : N) : ((16 * (k mod 2 ^ 53) + 2 ^ 52) / 2 ^ 53 ≤ 16)%N.
Proof.
  assert (k mod 2 ^ 53 < 2 ^ 53)%N as Hk by (by apply N.mod_lt).
  apply N.lt_succ_r. apply N.Div0.div_lt_upper_bound.
  change (2 ^ 52)%N with 4503599627370496%N in *.
  change (2 ^ 53)%N with 9007199254740992%N in *. lia.
Qed.

Lemma fakeUUID_run st :
  fakeUUID st
  = (Ok (fallback st),
     {| store := store st; entropy := entropy st; draws := S (draws st);
        console := console st |}).
Proof. done. Qed.

(** *** An instance patched by [set] or [stub] *)

Section Patched.
Context `{Host}.
Variables (C : class) (raw : value) (fields : properties) (uuid : value).
Variables (keyOrObject value patch next : value) (fields' : properties).
Hypothesis no_derived : DERIVED_PROPERTIES C = [].
Hypothesis stable : alias_stable C.
Hypothesis wf : proper C = true.
Hypothesis idfree : identity_free C.
Hypothesis loops : fields_of C raw = Ok fields.
Hypothesis diff : _diff keyOrObject value = Ok patch.
Hypothesis merge : merged C (instance_props C fields uuid) keyOrObject value = Ok next.
Hypothesis patch_plain : ∀ key, key ∈ fst <$> own_props patch → canonical C key = key.
Hypothesis loops' : fields_of C next = Ok fields'.

Lemma next_plain key : key ∈ fst <$> own_props next → canonical C key = key.
Proof.
  intros Hkey.
  apply (merged_keys C _ keyOrObject value patch next diff merge) in Hkey as [Hpatch|Hjson];
    [by apply patch_plain|].
  apply stable. apply assoc_in_keys in Hjson as [v Hv]. rewrite json_of_at in Hv.
  destruct (String.eqb_spec key "type"); [by right; right|].
  destruct (String.eqb_spec key "uuid"); [by right; left|].
  left. by destruct (assoc key (PROPERTIES C)).
Qed.

(** A field the patch does not name keeps its value, when its transformer
    returns its own results unchanged. *)
Lemma patched_outside k :
  idempotent C →
  k ≠ "uuid" → k ≠ "paginationId" → k ≠ "type" →
  k ∉ fst <$> own_props patch →
  assoc k fields' = assoc k fields.
Proof.
  intros idem Hu Hp Ht Hout.
  destruct (assoc k (PROPERTIES C)) as [typeFn|] eqn:Hk.
  2: { rewrite (fields_of_undeclared C next fields' loops' k Hk).
       by rewrite (fields_of_undeclared C raw fields loops k Hk). }
  destruct (inherited_member k) eqn:Hown.
  { destruct (assoc k fields') eqn:Hf'.
    { pose proof (fields_of_own C wf next fields' k loops' ltac:(by eexists)). congruence. }
    destruct (assoc k fields) eqn:Hf; [|done].
    pose proof (fields_of_own C wf raw fields k loops ltac:(by eexists)). congruence. }
  destruct (fields_of_declared C raw fields loops k typeFn Hk Hown) as [x Hx].
  assert (typeFn x = Ok x) as Hidem.
  { destruct (fields_of_image C raw fields loops k typeFn x Hk Hx) as [y Hy]. by eapply idem. }
  assert (assoc k (own_props next) = Some x) as Hnext.
  { rewrite (merged_outside C _ keyOrObject value patch next diff merge k Hout).
    by rewrite (json_field C raw fields uuid loops idfree). }
  destruct (fields_of_plain_at C next fields' k typeFn loops' no_derived) as (x' & Hx' & Hfield).
  - intros key Hkey. right. by apply next_plain.
  - by apply not_member_not_inherited.
  - done.
  - by eapply assoc_Some_keys.
  - unfold get_prop in Hx'. rewrite Hnext in Hx'. simpl in Hx'.
    rewrite Hidem in Hx'. injection Hx' as <-. rewrite Hx.
    destruct (is_undefined x) eqn:Hundef; [|done].
    apply is_undefined_eq in Hundef. subst x.
    destruct Hfield as (d & Hd & ->). congruence.
Qed.

Lemma patched_uuid :
  "uuid" ∉ fst <$> own_props patch → get_prop next "uuid" = uuid.
Proof.
  intros Hout. unfold get_prop.
  rewrite (merged_outside C _ keyOrObject value patch next diff merge "uuid" Hout).
  by rewrite (json_uuid C fields uuid).
Qed.
End Patched.

End MoreFacts.

(** * More of the code: what it does beyond the specification's statements *)

Module Further.
Import JS Machine Model Pure Examples Rest Facts Fields Serialization Reconstruction MoreFacts.

(** X1. [fakeUUID] takes one draw and returns the decimal of an integer
    from 0 to 16: one of seventeen strings. It prints nothing and leaves
    the store alone. *)
Theorem fakeUUID_range st :
  ∃ n, (n ≤ 16)%N ∧
    fakeUUID st
    = (Ok (VStr (decimal n)),
       {| store := store st; entropy := entropy st; draws := S (draws st);
          console := console st |}).
Proof.
  eexists. split; [apply (fallback_bound (entropy st (draws st)))|]. done.
Qed.

(** X2. [makeUUID] resolves the identifier in a fixed order. A truthy raw
    [uuid] is returned as it is and nothing else happens; else a truthy raw
    [id] is, in the same way; else one warning is printed, one random
    number is drawn and the fallback (a decimal from 0 to 16) is returned.
    A falsy [uuid] or [id] (0, the empty string, [null]) counts as absent.
    On [null] and [undefined] it throws. *)
Theorem makeUUID_order data st :
  (is_nullish data = true → ∃ e, makeUUID data st = (Throw e, st)) ∧
  (is_nullish data = false →
   (ToBoolean (get_prop data "uuid") = true →
      makeUUID data st = (Ok (get_prop data "uuid"), st)) ∧
   (ToBoolean (get_prop data "uuid") = false → ToBoolean (get_prop data "id") = true →
      makeUUID data st = (Ok (get_prop data "id"), st)) ∧
   (ToBoolean (get_prop data "uuid") = false → ToBoolean (get_prop data "id") = false →
      ∃ n, (n ≤ 16)%N ∧
        makeUUID data st
        = (Ok (VStr (decimal n)),
           {| store := store st; entropy := entropy st; draws := S (draws st);
              console := "generating fake uuid" :: console st |}))).
Proof.
  split.
  - intros Hdata. unfold makeUUID, Get. rewrite Hdata. by eexists.
  - intros Hdata. unfold makeUUID, Get. rewrite Hdata.
    erewrite bind_Ok by done. repeat split.
    + by intros ->.
    + intros -> Hid. erewrite bind_Ok by done. by rewrite Hid.
    + intros -> Hid. erewrite bind_Ok by done. rewrite Hid.
      eexists. split; [apply (fallback_bound (entropy st (draws st)))|]. done.
Qed.

(** X3. The shape of a constructed instance, in a class that writes no
    property over an inherited member. Its own keys are [uuid],
    [paginationId], [type] and the declared fields, each once, but for a
    field named as a member the instance inherits ([constructor],
    [toString], ...), which is never assigned; a raw key without a
    transformer never becomes a field. It is frozen unless the constructor
    was told not to freeze. *)
Theorem instance_shape C data flag st this st' :
  proper C = true →
  constructor C data flag st = (Ok this, st') →
  (∀ k, k ∈ own_keys st' this ↔
        (is_Some (assoc k (PROPERTIES C)) ∧ inherited_member k = false) ∨
        k = "uuid" ∨ k = "paginationId" ∨ k = "type") ∧
  NoDup (own_keys st' this) ∧
  is_frozen st' this = negb flag.
Proof.
  intros Hwf Hrun. apply constructor_inv in Hrun as (fields & Hdata & Hloops & -> & ->).
  rewrite own_keys_constructed, is_frozen_constructed. cbn [props frozen].
  split; [|split; [|done]].
  - intros k. rewrite instance_keys. by rewrite (fields_of_keys C Hwf data fields k Hloops).
  - apply NoDup_instance_props. by eapply NoDup_fields_of.
Qed.

(** X4. Every declared field that a constructed instance has came out of
    its transformer: it is a value the transformer returned at some input,
    whether the field was assigned from a raw key, filled by default or
    derived (the identity fields apart). *)
Theorem fields_are_coerced C data flag st this st' k typeFn :
  proper C = true →
  constructor C data flag st = (Ok this, st') →
  assoc k (PROPERTIES C) = Some typeFn →
  inherited_member k = false →
  k ≠ "uuid" → k ≠ "paginationId" → k ≠ "type" →
  ∃ y, typeFn y = Ok (field st' this k).
Proof.
  intros Hwf Hrun Hk Hown ? ? ?.
  apply constructor_inv in Hrun as (fields & Hdata & Hloops & -> & ->).
  rewrite field_constructed. cbn [props]. rewrite field_instance by done.
  destruct (fields_of_declared C data fields Hloops k typeFn Hk Hown) as [x Hx].
  rewrite Hx. by apply (fields_of_image C data fields Hloops k typeFn x).
Qed.

(** X5. When several raw keys resolve to one canonical field, the last one
    in the raw input's order decides: the field holds its coerced value, or
    the transformer's default when that value is [undefined] (for a raw key
    that is not skipped, and a field that is neither derived nor an
    identity field). *)
Theorem last_raw_key_wins C earlier key v flag st this st' typeFn :
  proper C = true →
  constructor C (VObj (earlier ++ [(key, v)])) flag st = (Ok this, st') →
  key ∉ fst <$> earlier →
  has_entry (DERIVED_PROPERTIES C) key = false →
  assoc (canonical C key) (PROPERTIES C) = Some typeFn →
  assoc (canonical C key) (DERIVED_PROPERTIES C) = None →
  canonical C key ≠ "uuid" → canonical C key ≠ "paginationId" → canonical C key ≠ "type" →
  ∃ x, typeFn v = Ok x ∧
       if is_undefined x
       then typeFn VUndefined = Ok (field st' this (canonical C key))
       else field st' this (canonical C key) = x.
Proof.
  intros Hwf Hrun Hfresh Hentry Hk Hplain ? ? ?.
  apply constructor_inv in Hrun as (fields & Hdata & Hloops & -> & ->).
  rewrite field_constructed. cbn [props]. rewrite field_instance by done.
  destruct (fields_of_inv C _ fields Hloops) as (o1 & o2 & L1 & L2 & L3).
  rewrite (derived_other C _ _ _ _ _ L3) by (by right; left).
  cbn [own_props] in L1. rewrite fmap_app in L1. cbn [fmap list_fmap fst] in L1.
  destruct (assigned_last C _ typeFn _ _ _ _ L1 Hentry Hk) as (x & Hx & Ho1).
  assert (get_prop (VObj (earlier ++ [(key, v)])) key = v) as Hv.
  { unfold get_prop. cbn [own_props]. rewrite assoc_app.
    apply assoc_None_iff in Hfresh. rewrite Hfresh. simpl. by rewrite String.eqb_refl. }
  rewrite Hv in Hx. exists x. split; [done|].
  pose proof (defaulted_at C (canonical C key) _ _ _ L2 (assoc_Some_keys _ _ _ Hk)) as Hat.
  unfold undefined_in in Hat. rewrite Ho1 in Hat.
  destruct (is_undefined x).
  - destruct Hat as (typeFn' & d & Hk' & Hd & ->). simpl. congruence.
  - by rewrite Hat.
Qed.


(** X7. [set] changes what the patch names and nothing else. For a class
    with no derived field, a stable alias map and idempotent transformers,
    that declares no identity field and writes no property over an
    inherited member, and a patch whose keys are canonical names and do not
    include [uuid]: when [set] returns, every field the patch does not name
    has in the new instance the value it had in the original, the identity
    fields included, and no warning was printed and no random number
    drawn. *)
Theorem set_keeps_the_rest `{Host} C raw st0 this st keyOrObject value patch new st' :
  DERIVED_PROPERTIES C = [] → alias_stable C → idempotent C →
  proper C = true → identity_free C →
  constructor C raw false st0 = (Ok this, st) →
  _diff keyOrObject value = Ok patch →
  (∀ key, key ∈ fst <$> own_props patch → canonical C key = key) →
  "uuid" ∉ fst <$> own_props patch →
  set C this keyOrObject value st = (Ok new, st') →
  (∀ k, k ∉ fst <$> own_props patch → field st' new k = field st this k) ∧
  console st' = console st ∧ draws st' = draws st.
Proof.
  intros Hd Hs Hi Hwf Hid Hnew Hdiff Hplain Hnouuid Hset.
  apply constructor_inv in Hnew as (fields & Hraw & Hloops & -> & ->).
  set (u := uuid_of raw st0) in *.
  set (oI := {| props := instance_props C fields u; frozen := negb false |}) in *.
  set (st := with_new (after_uuid raw st0) oI) in *.
  rewrite (set_run C st _ oI (lookup_constructed _ _ _)) in Hset.
  destruct (merged C (props oI) keyOrObject value) as [next|] eqn:Hmerged; [|done].
  apply constructor_inv in Hset as (fields' & Hnext & Hloops' & -> & ->).
  assert (get_prop next "uuid" = u) as Hu.
  { by apply (patched_uuid C fields u keyOrObject value patch next). }
  assert (uuid_of next st = u) as Huuid.
  { unfold uuid_of. rewrite Hu. unfold u. by rewrite uuid_of_truthy. }
  assert (after_uuid next st = st) as Hafter.
  { unfold after_uuid, has_identity. rewrite Hu. unfold u. by rewrite uuid_of_truthy. }
  rewrite Huuid, Hafter. split; [|done].
  intros k Hout. rewrite field_new. cbn [props].
  unfold st. rewrite field_constructed. unfold oI. cbn [props].
  destruct (decide (k = "type")) as [->|?]; [by rewrite !instance_type|].
  destruct (decide (k = "paginationId")) as [->|?]; [by rewrite !instance_paginationId|].
  destruct (decide (k = "uuid")) as [->|?]; [by rewrite !instance_uuid|].
  rewrite !field_instance by done.
  by rewrite (patched_outside C raw fields u keyOrObject value patch next fields').
Qed.

(** X8. [set(key, value)] on a declared field, when it returns, has stored
    the transformer's value at [value], or the transformer's default when
    that value is [undefined] (for a class with no derived field and a
    stable alias map that writes no property over an inherited member, and
    a field that is neither an identity field nor named as a member every
    object inherits). *)
Theorem set_coerces_the_field `{Host} C raw st0 this st key value typeFn new st' :
  DERIVED_PROPERTIES C = [] → alias_stable C → proper C = true →
  constructor C raw false st0 = (Ok this, st) →
  assoc key (PROPERTIES C) = Some typeFn →
  inherited key = false →
  key ≠ "uuid" → key ≠ "paginationId" → key ≠ "type" →
  set C this (VStr key) value st = (Ok new, st') →
  ∃ x, typeFn value = Ok x ∧
       if is_undefined x
       then typeFn VUndefined = Ok (field st' new key)
       else field st' new key = x.
Proof.
  intros Hd Hs Hwf Hnew Hk Hown ? ? ? Hset.
  apply constructor_inv in Hnew as (fields & Hraw & Hloops & -> & ->).
  set (u := uuid_of raw st0) in *.
  set (oI := {| props := instance_props C fields u; frozen := negb false |}) in *.
  set (st := with_new (after_uuid raw st0) oI) in *.
  rewrite (set_run C st _ oI (lookup_constructed _ _ _)) in Hset.
  destruct (merged_at C (props oI) key value) as (next & Hmerged & Hnext).
  rewrite Hmerged in Hset.
  apply constructor_inv in Hset as (fields' & Hobject & Hloops' & -> & ->).
  rewrite field_constructed. cbn [props]. rewrite field_instance by done.
  destruct (fields_of_plain_at C next fields' key typeFn Hloops' Hd) as (x & Hx & Hfield).
  - intros k [v Hv]%assoc_in_keys. right. apply Hs. rewrite Hnext in Hv.
    destruct (String.eqb_spec k key) as [->|?]; [left; by eexists|].
    rewrite json_of_at in Hv.
    destruct (String.eqb_spec k "type"); [by right; right|].
    destruct (String.eqb_spec k "uuid"); [by right; left|].
    left. by destruct (assoc k (PROPERTIES C)).
  - done.
  - done.
  - apply in_keys_iff. rewrite Hnext, String.eqb_refl. by eexists.
  - unfold get_prop in Hx. rewrite Hnext, String.eqb_refl in Hx. simpl in Hx.
    exists x. split; [done|]. destruct (is_undefined x).
    + destruct Hfield as (d & Hd' & ->). done.
    + by rewrite Hfield.
Qed.

(** X9. A [null] patch is no patch: [typeof null] is ['object'], the spread
    of [null] adds nothing, and [set(null)] is the reconstruction of the
    instance from its own [toJSON], in every state. *)
Theorem set_null_is_reconstruct `{Host} C this value st :
  set C this VNull value st = reconstruct C this st.
Proof.
  unfold set, reconstruct.
  destruct (store st !! this) as [obj|] eqn:Hthis.
  - pose proof (toJSON_run C st this obj Hthis) as Hjson.
    rewrite !(bind_Ok _ _ _ _ _ Hjson).
    unfold _diff. simpl. erewrite bind_Ok by done.
    unfold spread. simpl. rewrite app_nil_r.
    by rewrite (copy_id (json_of C (props obj))) by apply NoDup_json_of.
  - unfold toJSON, keys, mbind, M_bind. by rewrite Hthis.
Qed.

(** X10. [stub] is [set] with a handle attached. On a constructed instance
    of a class that writes no property over an inherited member, and from
    the same state: when [set] returns, [stub] returns the same new location
    with the same value in every field but [promise], both frozen, and
    leaves every older object as it was; the [promise] of the stub is the
    third argument when that is truthy and the second otherwise (the
    two-argument call [stub(patch, handle)]). When [set] throws, so does
    [stub], the same error. *)
Theorem stub_is_set_with_promise `{Host} C raw st0 this st keyOrObject valueOrPromise promise :
  proper C = true →
  constructor C raw false st0 = (Ok this, st) →
  (∀ new st1,
     set C this keyOrObject valueOrPromise st = (Ok new, st1) →
     ∃ st2,
       stub C this keyOrObject valueOrPromise promise st = (Ok new, st2) ∧
       (∀ k, k ≠ "promise" → field st2 new k = field st1 new k) ∧
       field st2 new "promise" = (if ToBoolean promise then promise else valueOrPromise) ∧
       is_frozen st1 new = true ∧ is_frozen st2 new = true ∧
       (∀ (l : loc) o, store st !! l = Some o → store st2 !! l = Some o)) ∧
  (∀ e st1,
     set C this keyOrObject valueOrPromise st = (Throw e, st1) →
     ∃ st2, stub C this keyOrObject valueOrPromise promise st = (Throw e, st2)).
Proof.
  intros _ Hnew.
  apply constructor_inv in Hnew as (fields & Hraw & Hloops & -> & ->).
  set (oI := {| props := instance_props C fields (uuid_of raw st0); frozen := negb false |}).
  set (st := with_new (after_uuid raw st0) oI).
  assert (store st !! length (store st0) = Some oI) as HI by apply lookup_constructed.
  rewrite (set_run C st _ oI HI), (stub_run C st _ oI HI).
  destruct (merged C (props oI) keyOrObject valueOrPromise) as [next|e'];
    [|split; [done|intros e st1 [= <- <-]; by eexists]].
  split.
  - intros new st1 Hset.
    apply constructor_inv in Hset as (fields' & Hnext & Hloops' & -> & ->).
    rewrite (constructor_Ok C next st Hnext true fields' Hloops'), attach_run.
    eexists. split; [done|].
    rewrite !is_frozen_constructed. cbn [frozen].
    split; [|split; [|split; [done|split; [done|]]]].
    + intros k Hk. rewrite !field_constructed. cbn [props].
      by rewrite assoc_set_prop_ne.
    + rewrite field_constructed. cbn [props]. by rewrite assoc_set_prop_eq.
    + intros l o Hl. apply store_old. by rewrite store_after_uuid.
  - intros e st1 Hset. destruct (is_nullish next) eqn:Hnext.
    + rewrite constructor_nullish in Hset |- * by done.
      injection Hset as <- <-. by eexists.
    + destruct (fields_of C next) as [fields'|e''] eqn:Hloops'.
      * by rewrite (constructor_Ok C next st Hnext false fields' Hloops') in Hset.
      * destruct (constructor_Throw C next st Hnext false e'' Hloops') as [o Hfalse].
        destruct (constructor_Throw C next st Hnext true e'' Hloops') as [o' Htrue].
        rewrite Hfalse in Hset. injection Hset as <- <-. rewrite Htrue. by eexists.
Qed.

(** X11. A class that declares a field named [promise] loses it to the
    stub: when [stub] returns (on a constructed instance of a class that
    writes no property over an inherited member), the handle has overwritten
    the field, and [toJSON] of the stub emits the handle under [promise]. *)
Theorem stub_promise_field_is_serialized `{Host} C raw st0 this st typeFn
    keyOrObject valueOrPromise promise new st' :
  proper C = true →
  constructor C raw false st0 = (Ok this, st) →
  assoc "promise" (PROPERTIES C) = Some typeFn →
  stub C this keyOrObject valueOrPromise promise st = (Ok new, st') →
  ∃ json,
    toJSON C new st' = (Ok (VObj json), st') ∧
    assoc "promise" json = Some (if ToBoolean promise then promise else valueOrPromise).
Proof.
  intros _ Hnew Hp Hstub.
  apply constructor_inv in Hnew as (fields & Hraw & Hloops & -> & ->).
  set (oI := {| props := instance_props C fields (uuid_of raw st0); frozen := negb false |}) in *.
  set (st := with_new (after_uuid raw st0) oI) in *.
  rewrite (stub_run C st _ oI (lookup_constructed _ _ _)) in Hstub.
  destruct (merged C (props oI) keyOrObject valueOrPromise) as [next|]; [|done].
  destruct (constructor C next true st) as [[new'|] st''] eqn:Hrun; [|done].
  apply constructor_inv in Hrun as (fields' & Hnext & Hloops' & -> & ->).
  rewrite attach_run in Hstub. injection Hstub as <- <-.
  eexists. split.
  { apply toJSON_run. apply (lookup_constructed next st). }
  cbn [props]. rewrite json_of_at. simpl. rewrite Hp.
  rewrite decide_True by (by eapply assoc_Some_keys, assoc_set_prop_eq).
  by rewrite assoc_set_prop_eq.
Qed.


(** X14. Coercion is idempotent: each transformer of the registry returns
    its own results unchanged, [arrayOf(t)] whenever [t] does. *)
Theorem registry_idempotent `{Host} :
  (∀ v x, Types.string v = Ok x → Types.string x = Ok x) ∧
  (∀ v x, Types.number v = Ok x → Types.number x = Ok x) ∧
  (∀ v x, Types.array v = Ok x → Types.array x = Ok x) ∧
  (∀ v x, Types.bool v = Ok x → Types.bool x = Ok x) ∧
  (∀ v x, Types.likes v = Ok x → Types.likes x = Ok x) ∧
  (∀ v x, Types.nop v = Ok x → Types.nop x = Ok x) ∧
  (∀ (t : transformer),
     (∀ y z, t y = Ok z → t z = Ok z) →
     ∀ v x, Types.arrayOf t v = Ok x → Types.arrayOf t x = Ok x).
Proof.
  split; [apply string_idempotent|]. split; [apply number_idempotent|].
  split; [apply array_idempotent|]. split; [apply bool_idempotent|].
  split; [apply likes_idempotent|]. split; [apply nop_idempotent|].
  intros t Ht v x. by apply arrayOf_idempotent.
Qed.

(** X15. [arrayOf] maps and composes. On an array it applies the element
    transformer to each element in turn: it returns the array of the
    results, of the same length and in the same order, when every call
    returns, and throws otherwise; on anything else it is the empty array;
    [arrayOf(f)] after [arrayOf(g)] returns what [arrayOf] of [f] after [g]
    returns; and with the default element transformer, [nop], it is
    [array]. *)
Theorem arrayOf_maps :
  (∀ (t : transformer) elems elems',
     Types.arrayOf t (VArr elems) = Ok (VArr elems') ↔
     Forall2 (λ x y, t x = Ok y) elems elems') ∧
  (∀ (t : transformer) elems,
     (∃ elems', Types.arrayOf t (VArr elems) = Ok (VArr elems')) ∨
     (∃ e, Types.arrayOf t (VArr elems) = Throw e)) ∧
  (∀ (t : transformer) v, isArray v = false → Types.arrayOf t v = Ok (VArr [])) ∧
  (∀ (f g : transformer) v x,
     Types.arrayOf g v ≫= Types.arrayOf f = Ok x ↔
     Types.arrayOf (λ y, g y ≫= f) v = Ok x) ∧
  (∀ v, Types.arrayOf Types.nop v = Types.array v).
Proof.
  split; [|split; [|split; [apply arrayOf_other|split]]].
  - intros t elems elems'. rewrite arrayOf_array. split.
    + destruct (traverse t elems) as [l|] eqn:Hmap; simpl; [|done].
      intros [= <-]. by apply traverse_inv.
    + intros Hall. by rewrite (traverse_Forall2 t elems elems' Hall).
  - intros t elems. rewrite arrayOf_array.
    destruct (traverse t elems); simpl; [left|right]; by eexists.
  - intros f g v x. destruct (isArray v) eqn:Harr.
    + destruct v as [| | | | |elems| |]; try done. rewrite !arrayOf_array. clear Harr.
      pose proof (traverse_compose g f elems) as Hcompose.
      destruct (traverse g elems) as [bs|]; simpl in Hcompose |- *.
      * rewrite arrayOf_array.
        destruct (traverse f bs) as [ds1|];
          destruct (traverse (λ y, g y ≫= f) elems) as [ds2|]; simpl.
        -- destruct (Hcompose ds1) as [Heq _]. specialize (Heq eq_refl). by injection Heq as <-.
        -- destruct (Hcompose ds1) as [Heq _]. by specialize (Heq eq_refl).
        -- destruct (Hcompose ds2) as [_ Heq]. by specialize (Heq eq_refl).
        -- done.
      * destruct (traverse (λ y, g y ≫= f) elems) as [ds2|]; simpl; [|done].
        destruct (Hcompose ds2) as [_ Heq]. by specialize (Heq eq_refl).
    + by rewrite !arrayOf_other.
  - intros v. destruct (isArray v) eqn:Harr.
    + destruct v; try done. rewrite arrayOf_array.
      unfold Types.nop. by rewrite traverse_pure.
    + rewrite arrayOf_other by done. by destruct v.
Qed.

End Further.

(** * Each conditional statement of the above, applied to a concrete run *)

Module FurtherWitnesses.
Import JS Machine Model Pure Examples Rest Facts Fields Serialization Reconstruction.
Import MoreFacts Further.
#[local] Existing Instance no_host.

(** X2 at [{id: 't3_a'}]: the id is taken and nothing else happens. *)
Lemma makeUUID_order_witness :
  makeUUID (VObj [("id", VStr "t3_a")]) boot = (Ok (VStr "t3_a"), boot).
Proof.
  destruct (makeUUID_order (VObj [("id", VStr "t3_a")]) boot) as [_ order].
  destruct (order eq_refl) as (_ & by_id & _). by apply by_id.
Defined.

(** X3 at the instance constructed from [{constructor: 'x', title: null,
    zzz: 1}] for the fields [{constructor: string, title: string}]: its own
    keys are [title] and the identity fields. *)
Lemma instance_shape_witness :
  (∀ k, k ∈ own_keys (built Inheriting
                        (VObj [("constructor", VStr "x"); ("title", VNull); ("zzz", num 1)])) 0 ↔
        (is_Some (assoc k (PROPERTIES Inheriting)) ∧ inherited_member k = false) ∨
        k = "uuid" ∨ k = "paginationId" ∨ k = "type") ∧
  NoDup (own_keys (built Inheriting
                     (VObj [("constructor", VStr "x"); ("title", VNull); ("zzz", num 1)])) 0) ∧
  is_frozen (built Inheriting
               (VObj [("constructor", VStr "x"); ("title", VNull); ("zzz", num 1)])) 0
  = negb false.
Proof.
  apply (instance_shape Inheriting
           (VObj [("constructor", VStr "x"); ("title", VNull); ("zzz", num 1)]) false boot);
    reflexivity.
Defined.

(** X4 at the field [b] of the instance constructed from [{a: null}]. *)
Lemma fields_are_coerced_witness :
  ∃ y, Types.number y = Ok (field (built (AB (VStr "t3") []) (VObj [("a", VNull)])) 0 "b").
Proof.
  apply (fields_are_coerced (AB (VStr "t3") []) (VObj [("a", VNull)]) false boot 0 _ "b");
    reflexivity || discriminate.
Defined.

(** X5 at [{y: 'a', x: 'b'}] with the alias [x] of [y]: [y] is ['b']. *)
Lemma last_raw_key_wins_witness :
  ∃ x, Types.string (VStr "b") = Ok x ∧
       if is_undefined x
       then Types.string VUndefined
            = Ok (field (built (Aliased (VStr "t3"))
                           (VObj ([("y", VStr "a")] ++ [("x", VStr "b")]))) 0
                    (canonical (Aliased (VStr "t3")) "x"))
       else field (built (Aliased (VStr "t3"))
                     (VObj ([("y", VStr "a")] ++ [("x", VStr "b")]))) 0
              (canonical (Aliased (VStr "t3")) "x") = x.
Proof.
  apply (last_raw_key_wins (Aliased (VStr "t3")) [("y", VStr "a")] "x" (VStr "b") false boot 0);
    try reflexivity; try discriminate.
  intros Hin. apply list_elem_of_singleton in Hin. discriminate Hin.
Defined.


(** X7 at [set('b', 3)] on the instance constructed from
    [{a: null, id: 't3_a'}]. *)
Lemma set_keeps_the_rest_witness :
  (∀ k, k ∉ fst <$> own_props (VObj [("b", num 3)]) →
        field (set (AB (VStr "t3") []) 0 (VStr "b") (num 3)
                 (built (AB (VStr "t3") []) (VObj [("a", VNull); ("id", VStr "t3_a")]))).2 1 k
        = field (built (AB (VStr "t3") []) (VObj [("a", VNull); ("id", VStr "t3_a")])) 0 k) ∧
  console (set (AB (VStr "t3") []) 0 (VStr "b") (num 3)
             (built (AB (VStr "t3") []) (VObj [("a", VNull); ("id", VStr "t3_a")]))).2
  = console (built (AB (VStr "t3") []) (VObj [("a", VNull); ("id", VStr "t3_a")])) ∧
  draws (set (AB (VStr "t3") []) 0 (VStr "b") (num 3)
           (built (AB (VStr "t3") []) (VObj [("a", VNull); ("id", VStr "t3_a")]))).2
  = draws (built (AB (VStr "t3") []) (VObj [("a", VNull); ("id", VStr "t3_a")])).
Proof.
  apply (set_keeps_the_rest (AB (VStr "t3") [])
           (VObj [("a", VNull); ("id", VStr "t3_a")]) boot 0 _ (VStr "b") (num 3)).
  - reflexivity.
  - intros k _. reflexivity.
  - apply AB_idempotent.
  - reflexivity.
  - repeat split; reflexivity.
  - reflexivity.
  - reflexivity.
  - intros key _. reflexivity.
  - intros Hin. apply list_elem_of_singleton in Hin. discriminate Hin.
  - vm_compute. reflexivity.
Defined.

(** X8 at [set('score', 11)] on the instance constructed from [{score: 10}]. *)
Lemma set_coerces_the_field_witness :
  ∃ x, Types.number (num 11) = Ok x ∧
       if is_undefined x
       then Types.number VUndefined
            = Ok (field (set (Scored (VStr "t3")) 0 (VStr "score") (num 11)
                           (built (Scored (VStr "t3")) (VObj [("score", num 10)]))).2 1 "score")
       else field (set (Scored (VStr "t3")) 0 (VStr "score") (num 11)
                     (built (Scored (VStr "t3")) (VObj [("score", num 10)]))).2 1 "score" = x.
Proof.
  apply (set_coerces_the_field (Scored (VStr "t3")) (VObj [("score", num 10)]) boot 0
           (built (Scored (VStr "t3")) (VObj [("score", num 10)])) "score" (num 11)
           Types.number 1).
  - reflexivity.
  - intros k _. reflexivity.
  - reflexivity.
  - reflexivity.
  - reflexivity.
  - reflexivity.
  - discriminate.
  - discriminate.
  - discriminate.
  - vm_compute. reflexivity.
Defined.

(** X10 at [stub('score', 11, handle)] on the instance constructed from
    [{score: 10}]. *)
Lemma stub_is_set_with_promise_witness :
  ∃ st2,
    stub (Scored (VStr "t3")) 0 (VStr "score") (num 11) (VPromise 0)
      (built (Scored (VStr "t3")) (VObj [("score", num 10)])) = (Ok 1, st2) ∧
    (∀ k, k ≠ "promise" →
          field st2 1 k
          = field (set (Scored (VStr "t3")) 0 (VStr "score") (num 11)
                     (built (Scored (VStr "t3")) (VObj [("score", num 10)]))).2 1 k) ∧
    field st2 1 "promise" = (if ToBoolean (VPromise 0) then VPromise 0 else num 11) ∧
    is_frozen (set (Scored (VStr "t3")) 0 (VStr "score") (num 11)
                 (built (Scored (VStr "t3")) (VObj [("score", num 10)]))).2 1 = true ∧
    is_frozen st2 1 = true ∧
    (∀ (l : loc) o,
       store (built (Scored (VStr "t3")) (VObj [("score", num 10)])) !! l = Some o →
       store st2 !! l = Some o).
Proof.
  destruct (stub_is_set_with_promise (Scored (VStr "t3")) (VObj [("score", num 10)]) boot 0
              (built (Scored (VStr "t3")) (VObj [("score", num 10)]))
              (VStr "score") (num 11) (VPromise 0) eq_refl eq_refl) as [returns _].
  apply returns. vm_compute. reflexivity.
Defined.

(** X11 at a stub of an instance of the class with the field [promise]. *)
Lemma stub_promise_field_is_serialized_witness :
  ∃ json,
    toJSON Promised 1
      (stub Promised 0 VNull (VPromise 0) VUndefined (built Promised (VObj []))).2
    = (Ok (VObj json),
       (stub Promised 0 VNull (VPromise 0) VUndefined (built Promised (VObj []))).2) ∧
    assoc "promise" json
    = Some (if ToBoolean VUndefined then VUndefined else VPromise 0).
Proof.
  apply (stub_promise_field_is_serialized Promised (VObj []) boot 0
           (built Promised (VObj [])) Types.nop VNull (VPromise 0) VUndefined 1).
  - reflexivity.
  - reflexivity.
  - reflexivity.
  - apply surjective_pairing.
Defined.


(** X14 at [arrayOf(string)] on [[null, "a"]], which it sends to
    [["", "a"]]. *)
Lemma registry_idempotent_witness :
  Types.arrayOf Types.string (VArr [VStr ""; VStr "a"]) = Ok (VArr [VStr ""; VStr "a"]).
Proof.
  destruct registry_idempotent as (Hstring & _ & _ & _ & _ & _ & HarrayOf).
  apply (HarrayOf Types.string Hstring (VArr [VNull; VStr "a"])). reflexivity.
Defined.

(** X15 at a value that is no array. *)
Lemma arrayOf_maps_witness : Types.arrayOf Types.bool (VStr "ab") = Ok (VArr []).
Proof.
  destruct arrayOf_maps as (_ & _ & Hother & _). by apply Hother.
Defined.

End FurtherWitnesses.
